(** * cliplin: classification of context files and reindexing into the
      document store

    A shallow embedding of [cliplin/utils/chromadb.py] and
    [cliplin/commands/reindex.py], followed by the properties of the path
    classifier, the file set resolver, the collection bootstrap and the
    per-file reconciliation loop.

    Conventions of the embedding.
    - A [pathlib.Path] is the list of its components below the filesystem
      root, for POSIX paths.  [project_root / s] and [relative_to] are
      written out.
    - The filesystem is a value [FS]: the paths that exist and the text of
      each file ([None] where [read_text] raises).
    - The ChromaDB client is an in-memory store together with the log of
      the calls issued so far.  Whether a call raises is decided by a fault
      oracle that sees that log and the call; the code is verified for
      every such oracle.
    - Code that may raise lives in the monad [M]: a state transformer over
      [World] whose result is an exception or a value. *)

From Stdlib Require Import String Ascii.
From stdpp Require Import base strings gmap list sorting.

Open Scope string_scope.

(* ================================================================== *)
(** * Strings and paths (Python [str], [fnmatch], [pathlib]) *)
(* ================================================================== *)

(** [s.split(sep)] for a one-character separator. *)
Fixpoint split_on (sep : ascii) (s : string) : list string :=
  match s with
  | EmptyString => [EmptyString]
  | String c s' =>
      if Ascii.eqb c sep then EmptyString :: split_on sep s'
      else match split_on sep s' with
           | [] => [String c EmptyString]
           | w :: ws => String c w :: ws
           end
  end.

(** [fnmatch.fnmatchcase name pat] for patterns built from literal
    characters, [*] and [?] (the mapping table uses no bracket class). *)
Fixpoint fnmatch (pat : string) : string -> bool :=
  match pat with
  | EmptyString => fun name => if name is EmptyString then true else false
  | String p pat' =>
      if Ascii.eqb p "*" then
        fix star (name : string) : bool :=
          fnmatch pat' name ||
          (if name is String _ name' then star name' else false)
      else if Ascii.eqb p "?" then
        fun name => if name is String _ name' then fnmatch pat' name' else false
      else
        fun name =>
          if name is String c name' then Ascii.eqb p c && fnmatch pat' name'
          else false
  end.

(** A path: its components below the filesystem root. *)
Abbreviation Path := (list string).

(** Components of a path written as a string: empty components and [.]
    are dropped, [..] is kept, as [pathlib] does. *)
Definition parse_parts (s : string) : Path :=
  filter (fun w => w ≠ "" ∧ w ≠ ".") (split_on "/" s).

(** [root / s]: an absolute [s] replaces [root]. *)
Definition joinpath (root : Path) (s : string) : Path :=
  if String.prefix "/" s then parse_parts s else root ++ parse_parts s.

(** [p.relative_to(root)]; [None] stands for the [ValueError] raised when
    [p] is not below [root]. *)
Fixpoint relative_to (p root : Path) {struct root} : option Path :=
  match root with
  | [] => Some p
  | r :: root' =>
      match p with
      | [] => None
      | c :: p' => if decide (c = r) then relative_to p' root' else None
      end
  end.

(** [str(p)] for a relative path. *)
Definition path_str (rel : Path) : string :=
  match rel with
  | [] => "."
  | _ => String.concat "/" rel
  end.

(** [p.match(pattern)] for a relative pattern of one component: the last
    component of [p] is matched against it. *)
Definition path_match (p : Path) (pattern : string) : bool :=
  match last p with
  | Some name => fnmatch pattern name
  | None => false
  end.

(** The order of [pathlib] paths: component lists compared
    lexicographically, each component by its characters. *)
Fixpoint path_compare (p q : Path) : comparison :=
  match p, q with
  | [], [] => Eq
  | [], _ :: _ => Lt
  | _ :: _, [] => Gt
  | a :: p', b :: q' =>
      match String.compare a b with
      | Eq => path_compare p' q'
      | c => c
      end
  end.

Definition path_le (p q : Path) : Prop := path_compare p q ≠ Gt.
Definition path_lt (p q : Path) : Prop := path_compare p q = Lt.

#[global] Instance path_le_dec : RelDecision path_le.
Proof. intros p q. unfold path_le. apply _. Defined.

(** [sorted(set(files))]. *)
Definition sorted_set (files : list Path) : list Path :=
  merge_sort path_le (elements (list_to_set files : gset Path)).

(* ================================================================== *)
(** * The filesystem *)
(* ================================================================== *)

Record FS := mkFS {
  fs_entries : list Path;            (* every file and directory that exists *)
  fs_text : Path -> option string;   (* [read_text]; [None]: it raises *)
}.

Definition fs_exists (fs : FS) (p : Path) : bool :=
  bool_decide (p ∈ fs_entries fs).

(** [d] is a proper ancestor of [e]. *)
Fixpoint below (d e : Path) : bool :=
  match d, e with
  | [], _ :: _ => true
  | [], [] => false
  | _ :: _, [] => false
  | a :: d', b :: e' => bool_decide (a = b) && below d' e'
  end.

(** [d.rglob(pattern)]: the entries strictly below [d] whose name matches. *)
Definition rglob (fs : FS) (d : Path) (pattern : string) : list Path :=
  filter (fun e => below d e = true ∧ path_match e pattern = true)
         (fs_entries fs).

(* ================================================================== *)
(** * utils/chromadb.py *)
(* ================================================================== *)

Record Mapping := mkMapping {
  directories : list string;
  file_pattern : string;
  type_tag : string;
}.

Definition COLLECTION_MAPPINGS : list (string * Mapping) :=
  [ ("business-and-architecture",
      mkMapping ["docs/adrs"; "docs/business"] "*.md" "adr");
    ("features", mkMapping ["docs/features"] "*.feature" "feature");
    ("tech-specs", mkMapping ["docs/ts4"] "*.ts4" "ts4");
    ("uisi", mkMapping ["docs/ui-intent"] "*.yaml" "ui-intent") ].

Definition REQUIRED_COLLECTIONS : list string := COLLECTION_MAPPINGS.*1.

(** The two nested [for] loops shared by [get_collection_for_file] and
    [get_file_type]: the first mapping one of whose directories is a string
    prefix of [str(relative_path)] and whose pattern matches the path. *)
Definition mapping_hits (file_path rel : Path) (m : Mapping) : bool :=
  existsb (fun directory =>
             String.prefix directory (path_str rel)
             && path_match file_path (file_pattern m))
          (directories m).

Fixpoint first_hit {A} (pick : string -> Mapping -> A)
    (file_path rel : Path) (table : list (string * Mapping)) : option A :=
  match table with
  | [] => None
  | (collection_name, mapping) :: table' =>
      if mapping_hits file_path rel mapping
      then Some (pick collection_name mapping)
      else first_hit pick file_path rel table'
  end.

(** Both return [None] for the [ValueError] of [relative_to], and
    [Some None] for Python's [None]. *)
Definition get_collection_for_file (file_path project_root : Path)
    : option (option string) :=
  match relative_to file_path project_root with
  | Some rel => Some (first_hit (fun n _ => n) file_path rel COLLECTION_MAPPINGS)
  | None => None
  end.

Definition get_file_type (file_path project_root : Path)
    : option (option string) :=
  match relative_to file_path project_root with
  | Some rel =>
      Some (first_hit (fun _ m => type_tag m) file_path rel COLLECTION_MAPPINGS)
  | None => None
  end.

(* ================================================================== *)
(** * The document store and the effects of the code *)
(* ================================================================== *)

(** The metadata written with a document: always these three fields. *)
Record Metadata := mkMetadata {
  md_file_path : string;
  md_type : string;
  md_collection : string;
}.

Record Document := mkDocument {
  doc_content : string;
  doc_metadata : Metadata;
}.

(** The calls the code issues on the client and on collection handles. *)
Inductive Call :=
  | PersistentClient
  | ListCollections
  | GetOrCreateCollection (name : string)
  | GetCollection (name : string)
  | CollGet (collection id : string)
  | CollAdd (collection id content : string) (metadata : Metadata)
  | CollUpdate (collection id content : string) (metadata : Metadata).

Inductive Exn :=
  | FileNotFoundError (what : string)
  | ValueError (what : string)
  | KeyError (key : string)
  | ReadError (p : Path)
  | StoreError (c : Call).

Abbreviation Store := (gmap string (gmap string Document)).

Record World := mkWorld {
  store : Store;
  calls : list Call;      (* oldest first *)
}.

(** [faults log c]: does call [c], issued after the calls of [log], raise? *)
Abbreviation Faults := (list Call -> Call -> bool).

Definition M (A : Type) : Type := World -> World * (Exn + A).

Definition ret {A} (a : A) : M A := fun w => (w, inr a).
Definition raise {A} (e : Exn) : M A := fun w => (w, inl e).
Definition bind {A B} (m : M A) (k : A -> M B) : M B :=
  fun w => match m w with
           | (w', inl e) => (w', inl e)
           | (w', inr a) => k a w'
           end.
(** [try: m except Exception as e: h e] *)
Definition try_except {A} (m : M A) (h : Exn -> M A) : M A :=
  fun w => match m w with
           | (w', inl e) => h e w'
           | (w', inr a) => (w', inr a)
           end.

Declare Scope m_scope.
Delimit Scope m_scope with M.
Notation "x <- m ;; k" := (bind m (fun x => k))
  (at level 100, m at next level, right associativity) : m_scope.

(** One call on the store: it is logged; it raises when the oracle says
    so or when [run] does; otherwise [run] gives the new store and the
    returned value. *)
Definition store_call {A} (faults : Faults) (c : Call)
    (run : Store -> option (Store * A)) : M A :=
  fun w =>
    let w1 := mkWorld (store w) (calls w ++ [c]) in
    if faults (calls w) c then (w1, inl (StoreError c))
    else match run (store w) with
         | None => (w1, inl (StoreError c))
         | Some (s', a) => (mkWorld s' (calls w1), inr a)
         end.

Section Client.
Variable faults : Faults.

Definition open_client : M unit :=
  store_call faults PersistentClient (fun s => Some (s, tt)).

(** [client.list_collections()], as the list of names. *)
Definition list_collections : M (list string) :=
  store_call faults ListCollections (fun s => Some (s, elements (dom s))).

Definition get_or_create_collection (name : string) : M unit :=
  store_call faults (GetOrCreateCollection name) (fun s =>
    match s !! name with
    | Some _ => Some (s, tt)
    | None => Some (<[name := ∅]> s, tt)
    end).

(** [client.get_collection(name)]: raises for an unknown name; the handle
    is the name. *)
Definition get_collection (name : string) : M string :=
  store_call faults (GetCollection name) (fun s =>
    match s !! name with
    | Some _ => Some (s, name)
    | None => None
    end).

(** [collection.get(ids=[id])["ids"]] *)
Definition coll_get (collection id : string) : M (list string) :=
  store_call faults (CollGet collection id) (fun s =>
    docs ← s !! collection;
    Some (s, if docs !! id is Some _ then [id] else [])).

(** [collection.add]: a record whose id is already stored is left as it is. *)
Definition coll_add (collection id content : string) (metadata : Metadata)
    : M unit :=
  store_call faults (CollAdd collection id content metadata) (fun s =>
    docs ← s !! collection;
    match docs !! id with
    | Some _ => Some (s, tt)
    | None =>
        Some (<[collection := <[id := mkDocument content metadata]> docs]> s, tt)
    end).

(** [collection.update]: replaces a stored record; an unknown id is ignored. *)
Definition coll_update (collection id content : string) (metadata : Metadata)
    : M unit :=
  store_call faults (CollUpdate collection id content metadata) (fun s =>
    docs ← s !! collection;
    match docs !! id with
    | Some _ =>
        Some (<[collection := <[id := mkDocument content metadata]> docs]> s, tt)
    | None => Some (s, tt)
    end).

(** [verify_collections(client)] *)
Definition verify_collections : M (list string) :=
  (existing_collections <- list_collections ;;
   ret (filter (fun col => col ∉ existing_collections) REQUIRED_COLLECTIONS))%M.

End Client.

(* ================================================================== *)
(** * commands/reindex.py *)
(* ================================================================== *)

(** Truth value of an [Optional[str]]: [None] and the empty string are
    false. *)
Definition truthy (o : option string) : option string :=
  match o with
  | Some s => if decide (s = "") then None else Some s
  | None => None
  end.

Definition of_option {A} (e : Exn) (o : option A) : M A :=
  match o with
  | Some a => ret a
  | None => raise e
  end.

Definition not_relative : Exn := ValueError "path is not in the subpath of the project root".

Definition type_mapping : gmap string (string * string) :=
  list_to_map
    [ ("ts4", ("docs/ts4", "*.ts4"));
      ("feature", ("docs/features", "*.feature"));
      ("md", ("docs/adrs", "*.md"));
      ("yaml", ("docs/ui-intent", "*.yaml")) ].

(** [files.extend(dir_path.rglob(pattern))] under [if dir_path.exists()]. *)
Definition rglob_if_exists (fs : FS) (project_root : Path)
    (dir_name pattern : string) : list Path :=
  let dir_path := joinpath project_root dir_name in
  if fs_exists fs dir_path then rglob fs dir_path pattern else [].

Definition get_files_to_reindex (fs : FS) (project_root : Path)
    (file_path file_type directory : option string) : Exn + list Path :=
  match truthy file_path, truthy file_type, truthy directory with
  | Some file_path, _, _ =>
      (* Single file *)
      let full_path := joinpath project_root file_path in
      if negb (fs_exists fs full_path) then inl (FileNotFoundError file_path)
      else
        match get_collection_for_file full_path project_root with
        | None => inl not_relative
        | Some collection =>
            match truthy collection with
            | None => inl (ValueError "File is not in a valid context directory")
            | Some _ => inr (sorted_set [full_path])
            end
        end
  | None, Some file_type, _ =>
      (* Files of specific type *)
      match type_mapping !! file_type with
      | None => inl (ValueError "Unknown file type")
      | Some dir_pattern =>
          let files :=
            if decide (file_type = "md") then
              (* Search both adrs and business *)
              flat_map (fun dir_name => rglob_if_exists fs project_root dir_name "*.md")
                       ["docs/adrs"; "docs/business"]
            else rglob_if_exists fs project_root dir_pattern.1 dir_pattern.2
          in inr (sorted_set files)
      end
  | None, None, Some directory =>
      (* Files in specific directory *)
      let dir_path := joinpath project_root directory in
      if negb (fs_exists fs dir_path) then inl (FileNotFoundError directory)
      else
        match List.find (fun cm => bool_decide (directory ∈ directories cm.2))
                        COLLECTION_MAPPINGS with
        | Some (_, mapping) =>
            inr (sorted_set (rglob fs dir_path (file_pattern mapping)))
        | None => inl (ValueError "Directory is not a valid context directory")
        end
  | None, None, None =>
      (* All context files *)
      inr (sorted_set
             (flat_map (fun cm =>
                flat_map (fun dir_name =>
                            rglob_if_exists fs project_root dir_name
                                            (file_pattern cm.2))
                         (directories cm.2))
                COLLECTION_MAPPINGS))
  end.

Section Reindex.
Variable faults : Faults.
Variable fs : FS.

(** [reindex_file]: returns ["added"] or ["updated"].  Console output is
    not part of the model, so [verbose] is not a parameter. *)
Definition reindex_file (file_path project_root : Path) : M string :=
  (relative_path <- of_option not_relative (relative_to file_path project_root) ;;
   let file_id := path_str relative_path in
   (* Get collection and file type *)
   collection_name <- of_option not_relative
                        (get_collection_for_file file_path project_root) ;;
   collection_name <- of_option (ValueError "Cannot determine collection")
                        (truthy collection_name) ;;
   file_type <- of_option not_relative (get_file_type file_path project_root) ;;
   file_type <- of_option (ValueError "Cannot determine file type")
                  (truthy file_type) ;;
   (* Read file content *)
   content <- of_option (ReadError file_path) (fs_text fs file_path) ;;
   (* Get collection *)
   collection <- get_collection faults collection_name ;;
   (* Check if document exists *)
   exists_ <- try_except
                (existing <- coll_get faults collection file_id ;;
                 ret (bool_decide (0 < length existing)))
                (fun _ => ret false) ;;
   (* Prepare metadata *)
   let metadata := mkMetadata file_id file_type collection_name in
   if exists_ : bool then
     _ <- coll_update faults collection file_id content metadata ;;
     ret "updated"
   else
     _ <- coll_add faults collection file_id content metadata ;;
     ret "added")%M.

(** One row of the dry-run table: path, status, action. *)
Definition Row : Type := string * string * string.

Fixpoint display_dry_run_report (files : list Path) (project_root : Path)
    : M (list Row) :=
  match files with
  | [] => ret []
  | file_path :: files' =>
      (relative_path <- of_option not_relative
                          (relative_to file_path project_root) ;;
       let file_id := path_str relative_path in
       collection_name <- of_option not_relative
                            (get_collection_for_file file_path project_root) ;;
       match truthy collection_name with
       | None =>
           rows <- display_dry_run_report files' project_root ;;
           ret ((file_id, "Invalid", "Skip") :: rows)
       | Some collection_name =>
           collection <- get_collection faults collection_name ;;
           row <- try_except
                    (existing <- coll_get faults collection file_id ;;
                     ret (if bool_decide (0 < length existing)
                          then (file_id, "Exists", "Update")
                          else (file_id, "New", "Add")))
                    (fun _ => ret (file_id, "New", "Add")) ;;
           rows <- display_dry_run_report files' project_root ;;
           ret (row :: rows)
       end)%M
  end.
End Reindex.

(** The [stats] dictionary: its four keys are fixed. *)
Record Stats := mkStats {
  added : nat;
  updated : nat;
  skipped : nat;
  errors : nat;
}.

(** [stats[key] += 1]; [None] stands for the [KeyError]. *)
Definition stats_incr (key : string) (stats : Stats) : option Stats :=
  if decide (key = "added") then
    Some (mkStats (S (added stats)) (updated stats) (skipped stats) (errors stats))
  else if decide (key = "updated") then
    Some (mkStats (added stats) (S (updated stats)) (skipped stats) (errors stats))
  else if decide (key = "skipped") then
    Some (mkStats (added stats) (updated stats) (S (skipped stats)) (errors stats))
  else if decide (key = "errors") then
    Some (mkStats (added stats) (updated stats) (skipped stats) (S (errors stats)))
  else None.

Definition stats_error (stats : Stats) : Stats :=
  mkStats (added stats) (updated stats) (skipped stats) (S (errors stats)).

Section Command.
Variable faults : Faults.
Variable fs : FS.

(** The body of [for file_path_obj in files_to_process]: [try] the file
    and count its result, [except Exception] count an error. *)
Definition reindex_one (project_root file_path_obj : Path) (stats : Stats)
    (w : World) : World * Stats :=
  match reindex_file faults fs file_path_obj project_root w with
  | (w', inr result) =>
      match stats_incr result stats with
      | Some stats' => (w', stats')
      | None => (w', stats_error stats)
      end
  | (w', inl _) => (w', stats_error stats)
  end.

Fixpoint reindex_loop (project_root : Path) (files_to_process : list Path)
    (stats : Stats) (w : World) : World * Stats :=
  match files_to_process with
  | [] => (w, stats)
  | file_path_obj :: rest =>
      let '(w', stats') := reindex_one project_root file_path_obj stats w in
      reindex_loop project_root rest stats' w'
  end.

(** Lines 73-78 of [reindex_command]: create the missing collections.
    Returns the names that were missing. *)
Fixpoint create_collections (missing_collections : list string) : M unit :=
  match missing_collections with
  | [] => ret tt
  | col_name :: rest =>
      (_ <- get_or_create_collection faults col_name ;;
       create_collections rest)%M
  end.

Definition ensure_collections : M (list string) :=
  (missing_collections <- verify_collections faults ;;
   _ <- create_collections missing_collections ;;
   ret missing_collections)%M.

(** How a run of the command ends. *)
Inductive CommandResult :=
  | NotInitialized
  | Failed (e : Exn)
  | NoFiles
  | DryRun (report : list Row)
  | Declined
  | Summary (stats : Stats).

Definition get_chromadb_path (project_root : Path) : Path :=
  project_root ++ [".cliplin"; "data"; "context"; "chroma.sqlite3"].

(** [reindex_command].  [confirm] is the answer given to the prompt of
    the interactive mode. *)
Definition reindex_command (project_root : Path)
    (file_path type directory : option string)
    (dry_run interactive confirm : bool) (w : World)
    : World * CommandResult :=
  if negb (fs_exists fs (get_chromadb_path project_root))
  then (w, NotInitialized)
  else
    let body : M CommandResult :=
      (_ <- open_client faults ;;
       (* Ensure all collections exist *)
       _ <- ensure_collections ;;
       (* Get files to reindex *)
       files_to_process <-
         (fun w => (w, get_files_to_reindex fs project_root file_path type directory)) ;;
       if decide (files_to_process = []) then ret NoFiles
       else if dry_run then
         report <- display_dry_run_report faults files_to_process project_root ;;
         ret (DryRun report)
       else if interactive && negb confirm then ret Declined
       else
         fun w =>
           let '(w', stats) :=
             reindex_loop project_root files_to_process (mkStats 0 0 0 0) w in
           (w', inr (Summary stats)))%M
    in
    match body w with
    | (w', inr r) => (w', r)
    | (w', inl e) => (w', Failed e)
    end.
End Command.

(* ================================================================== *)
(** * Vocabulary of the properties *)
(* ================================================================== *)

(** A pattern without wildcard matches itself only. *)
Fixpoint literal (pat : string) : Prop :=
  match pat with
  | EmptyString => True
  | String c pat' => c ≠ "*"%char ∧ c ≠ "?"%char ∧ literal pat'
  end.

(** A path has the extension [ext] when its last component ends in it. *)
Definition has_ext (p : Path) (ext : string) : Prop :=
  ∃ stem, last p = Some (stem +:+ ext).

(** The entry of the table that both lookups select. *)
Definition classify (file_path rel : Path) : option (string * Mapping) :=
  first_hit (fun n m => (n, m)) file_path rel COLLECTION_MAPPINGS.

(** The result of [reindex_file] for each file of the batch, in order,
    each file run in the world the files before it left behind. *)
Fixpoint file_results (faults : Faults) (fs : FS) (project_root : Path)
    (files : list Path) (w : World) : list (Exn + string) :=
  match files with
  | [] => []
  | f :: rest =>
      let res := reindex_file faults fs f project_root w in
      res.2 :: file_results faults fs project_root rest res.1
  end.

Fixpoint count_errors (rs : list (Exn + string)) : nat :=
  match rs with
  | [] => 0
  | inl _ :: rs' => S (count_errors rs')
  | inr _ :: rs' => count_errors rs'
  end.

Definition reconciled (r : Exn + string) : Prop :=
  r = inr "added" ∨ r = inr "updated".

(** What [reindex_file] does once the path is classified and its text is
    read: the part of its body from [client.get_collection] on. *)
Definition reconcile (faults : Faults)
    (collection_name file_id file_type content : string) : M string :=
  (collection <- get_collection faults collection_name ;;
   exists_ <- try_except
                (existing <- coll_get faults collection file_id ;;
                 ret (bool_decide (0 < length existing)))
                (fun _ => ret false) ;;
   let metadata := mkMetadata file_id file_type collection_name in
   if exists_ : bool then
     _ <- coll_update faults collection file_id content metadata ;;
     ret "updated"
   else
     _ <- coll_add faults collection file_id content metadata ;;
     ret "added")%M.

(** The document stored under [id] in [collection], if any. *)
Definition doc_at (s : Store) (collection id : string) : option Document :=
  match s !! collection with
  | Some docs => docs !! id
  | None => None
  end.

Definition is_write (c : Call) : bool :=
  match c with
  | CollAdd _ _ _ _ | CollUpdate _ _ _ _ => true
  | _ => false
  end.

Definition is_read (c : Call) : bool :=
  match c with
  | GetCollection _ | CollGet _ _ => true
  | _ => false
  end.

Definition is_bootstrap (c : Call) : bool :=
  match c with
  | PersistentClient | ListCollections | GetOrCreateCollection _ => true
  | _ => false
  end.

(** The two stores hold the same documents. *)
Definition same_docs (s s' : Store) : Prop :=
  ∀ collection id, doc_at s' collection id = doc_at s collection id.

(** From [w] to [w'] the store moved within [E] and only calls of kind
    [K] were issued. *)
Definition frame (K : Call → bool) (E : relation Store) (w w' : World) : Prop :=
  E (store w) (store w')
  ∧ ∃ issued, calls w' = (calls w ++ issued)%list ∧ Forall (fun c => K c = true) issued.

Definition respects (K : Call → bool) (E : relation Store) {A} (m : M A) : Prop :=
  ∀ w, frame K E w (m w).1.

(** The source directories of the mapping table. *)
Definition registered_dirs : list string :=
  flat_map (fun cm => directories cm.2) COLLECTION_MAPPINGS.

(** A project with a sibling of [docs/features] whose name starts the same. *)
Definition fs_sibling : FS :=
  mkFS [ ["proj"]; ["proj"; ".cliplin"; "data"; "context"; "chroma.sqlite3"];
         ["proj"; "docs"];
         ["proj"; "docs"; "features"];
         ["proj"; "docs"; "featuresExtra"];
         ["proj"; "docs"; "featuresExtra"; "x.feature"] ]
       (fun _ => Some "Feature: x").

(** A small project on which the code is run: two architecture records,
    one of them unreadable, and one feature file. *)
Definition demo_root : Path := ["proj"].

Definition demo_adr_a : Path := ["proj"; "docs"; "adrs"; "a.md"].
Definition demo_adr_b : Path := ["proj"; "docs"; "adrs"; "sub"; "b.md"].
Definition demo_feature : Path := ["proj"; "docs"; "features"; "login.feature"].

Definition demo_fs : FS :=
  mkFS [ demo_root;
         get_chromadb_path demo_root;
         ["proj"; "docs"];
         ["proj"; "docs"; "features"]; demo_feature;
         ["proj"; "docs"; "adrs"]; demo_adr_b; demo_adr_a;
         ["proj"; "docs"; "adrs"; "notes.txt"] ]
       (fun p => if decide (p = demo_adr_a) then None else Some "text").

Definition demo_files : list Path := [demo_adr_a; demo_adr_b; demo_feature].

(** No call raises. *)
Definition no_faults : Faults := fun _ _ => false.

(** Every existence check raises; the other calls succeed. *)
Definition lookup_fails : Faults :=
  fun _ c => match c with CollGet _ _ => true | _ => false end.

Definition empty_world : World := mkWorld ∅ [].

(** The store once the four collections are created. *)
Definition bootstrapped : World := (ensure_collections no_faults empty_world).1.

(* ================================================================== *)
(** * utils/chromadb.py: [initialize_collections] *)
(* ================================================================== *)

(** [RuntimeError("Failed to initialize ChromaDB collection ...") from e] *)
Inductive InitError :=
  | RuntimeError (collection_name : string) (cause : Exn).

(** The loop of [initialize_collections] over the names still to create.
    The description passed as metadata is a function of the name and is
    not stored by the model. *)
Fixpoint initialize_each (faults : Faults) (names : list string) (w : World)
    : World * (InitError + unit) :=
  match names with
  | [] => (w, inr tt)
  | collection_name :: rest =>
      match get_or_create_collection faults collection_name w with
      | (w', inr _) => initialize_each faults rest w'
      | (w', inl e) => (w', inl (RuntimeError collection_name e))
      end
  end.

Definition initialize_collections (faults : Faults) (w : World)
    : World * (InitError + unit) :=
  initialize_each faults REQUIRED_COLLECTIONS w.

(* ================================================================== *)
(** * commands/validate.py *)
(* ================================================================== *)

Definition REQUIRED_DIRS : list string :=
  [ "docs/adrs"; "docs/business"; "docs/features"; "docs/ts4";
    "docs/ui-intent"; ".cliplin/data/context" ].

Definition is_cliplin_initialized (fs : FS) (project_root : Path) : bool :=
  let cliplin_dir := joinpath project_root ".cliplin" in
  fs_exists fs cliplin_dir
  && fs_exists fs (joinpath (joinpath cliplin_dir "data") "context").

(** The entries of the [errors] and [warnings] lists. *)
Inductive ValidationError :=
  | MissingDirectory (dir_path : string)
  | MissingCollection (col : string)
  | AccessError (e : Exn)
  | DatabaseNotFound
  | PythonTooOld.

Inductive ValidationWarning :=
  | ConfigNotFound.

(** How [validate_command] ends: exit code 1 before any check, exit code 1
    with the errors found, or success. *)
Inductive Validation :=
  | NotACliplinProject
  | ValidationFailed (errors : list ValidationError)
                     (warnings : list ValidationWarning)
  | ValidationPassed (warnings : list ValidationWarning).

(** [sys.version_info >= (3, 10)], from the major and minor numbers. *)
Definition python_ok (version : nat * nat) : bool :=
  Nat.ltb 3 version.1 || (Nat.eqb version.1 3 && Nat.leb 10 version.2).

(** The directory checks: one error for each required directory that is
    missing, in the order of [REQUIRED_DIRS]. *)
Definition directory_errors (fs : FS) (project_root : Path)
    : list ValidationError :=
  flat_map (fun dir_path =>
              if fs_exists fs (joinpath project_root dir_path) then []
              else [MissingDirectory dir_path])
           REQUIRED_DIRS.

(** The ChromaDB checks, with the [try] around the client and the listing. *)
Definition chromadb_errors (faults : Faults) (fs : FS) (project_root : Path)
    (w : World) : World * list ValidationError :=
  if fs_exists fs (get_chromadb_path project_root) then
    match (_ <- open_client faults ;; verify_collections faults)%M w with
    | (w', inr missing_collections) => (w', MissingCollection <$> missing_collections)
    | (w', inl e) => (w', [AccessError e])
    end
  else (w, [DatabaseNotFound]).

Definition validate_command (faults : Faults) (fs : FS) (project_root : Path)
    (version : nat * nat) (w : World) : World * Validation :=
  if negb (is_cliplin_initialized fs project_root) then (w, NotACliplinProject)
  else
    let errors1 := directory_errors fs project_root in
    let '(w', errors2) := chromadb_errors faults fs project_root w in
    let errors3 := if python_ok version then [] else [PythonTooOld] in
    let warnings :=
      if fs_exists fs (joinpath (joinpath project_root ".cliplin") "config.yaml")
      then [] else [ConfigNotFound] in
    let errors := (errors1 ++ errors2 ++ errors3)%list in
    match errors with
    | [] => (w', ValidationPassed warnings)
    | _ => (w', ValidationFailed errors warnings)
    end.

(* ================================================================== *)
(** * Vocabulary for the reconciliation of a batch *)
(* ================================================================== *)

(** What [reindex_file] prepares before it contacts the store: the
    collection, the identifier and the document to write, or the exception
    raised on the way. *)
Definition plan (fs : FS) (file_path project_root : Path)
    : Exn + (string * string * Document) :=
  match relative_to file_path project_root with
  | None => inl not_relative
  | Some rel =>
      match classify file_path rel with
      | None => inl (ValueError "Cannot determine collection")
      | Some cm =>
          match fs_text fs file_path with
          | None => inl (ReadError file_path)
          | Some content =>
              inr (cm.1, path_str rel,
                   mkDocument content
                     (mkMetadata (path_str rel) (type_tag cm.2) cm.1))
          end
      end
  end.

(** A file that cannot be reconciled in store [s] even when no call
    fails: nothing to write, or no collection to write to. *)
Definition cannot_reconcile (fs : FS) (s : Store) (project_root file_path : Path)
    : bool :=
  match plan fs file_path project_root with
  | inl _ => true
  | inr (c, _, _) => if s !! c is Some _ then false else true
  end.

Fixpoint count_if {A} (f : A → bool) (l : list A) : nat :=
  match l with
  | [] => 0
  | a :: l' => (if f a then 1 else 0) + count_if f l'
  end.

(** No call raises from the log of [w] on. *)
Definition no_faults_from (faults : Faults) (w : World) : Prop :=
  ∀ log call, calls w `prefix_of` log → faults log call = false.

(** Each document carries the collection it lives in, its own identifier,
    and the type of that collection's mapping. *)
Definition well_tagged (s : Store) : Prop :=
  ∀ collection id d,
    doc_at s collection id = Some d →
    md_collection (doc_metadata d) = collection
    ∧ md_file_path (doc_metadata d) = id
    ∧ ∃ m, (collection, m) ∈ COLLECTION_MAPPINGS
           ∧ md_type (doc_metadata d) = type_tag m.

(** The document of the file is in store [s], should the file be one that
    can be reconciled there. *)
Definition already_stored (fs : FS) (s : Store) (project_root file_path : Path)
    : Prop :=
  match plan fs file_path project_root with
  | inl _ => True
  | inr (c, id, _) => is_Some (s !! c) → is_Some (doc_at s c id)
  end.

(** The row of a classified file: its relative path with one of the two
    verdicts. *)
Definition row_of (project_root f : Path) (row : Row) : Prop :=
  ∃ rel, relative_to f project_root = Some rel
         ∧ (row = (path_str rel, "Exists", "Update")
            ∨ row = (path_str rel, "New", "Add")).


(** The store after [initialize_collections] on an empty one. *)
Definition initialized : World := (initialize_collections no_faults empty_world).1.

(** An initialized project with every required directory and no
    configuration file. *)
Definition valid_fs : FS :=
  mkFS [ ["proj"]; ["proj"; ".cliplin"]; ["proj"; ".cliplin"; "data"];
         ["proj"; ".cliplin"; "data"; "context"];
         ["proj"; ".cliplin"; "data"; "context"; "chroma.sqlite3"];
         ["proj"; "docs"]; ["proj"; "docs"; "adrs"]; ["proj"; "docs"; "business"];
         ["proj"; "docs"; "features"]; ["proj"; "docs"; "ts4"];
         ["proj"; "docs"; "ui-intent"] ]
       (fun _ => Some "").

(** An initialized project without its database file, with two of the
    [docs] directories only. *)
Definition partial_fs : FS :=
  mkFS [ ["proj"]; ["proj"; ".cliplin"]; ["proj"; ".cliplin"; "data"];
         ["proj"; ".cliplin"; "data"; "context"];
         ["proj"; "docs"]; ["proj"; "docs"; "adrs"]; ["proj"; "docs"; "features"] ]
       (fun _ => Some "").

(* ================================================================== *)
(** * Proof automation *)
(* ================================================================== *)

(** Projections of record values and nested appends, put in normal form. *)
Ltac norm_world :=
  repeat first
    [ progress cbn [store calls app fst snd length mbind option_bind]
    | rewrite <- app_assoc ].

(* ================================================================== *)
(** * The order on paths and [sorted(set(files))] *)
(* ================================================================== *)

Section PathOrder.

Lemma string_compare_refl (a : string) : (a ?= a)%string = Eq.
Proof.
  induction a as [|c a IH]; simpl; [done|].
  unfold Ascii.compare. by rewrite N.compare_refl.
Qed.

Lemma string_compare_lt_trans (a b c : string) :
  (a ?= b)%string = Lt → (b ?= c)%string = Lt → (a ?= c)%string = Lt.
Proof.
  intros Hab Hbc.
  assert (Hle : String.le a c).
  { trans b; unfold String.le, String.leb; [by rewrite Hab | by rewrite Hbc]. }
  unfold String.le, String.leb in Hle.
  destruct (a ?= c)%string eqn:Hac; [|done|done].
  apply String.compare_eq_iff in Hac as ->.
  rewrite String.compare_antisym, Hab in Hbc. discriminate.
Qed.

Lemma path_compare_antisym (p q : Path) :
  path_compare p q = CompOpp (path_compare q p).
Proof.
  revert q. induction p as [|a p IH]; intros [|b q]; simpl; try done.
  rewrite String.compare_antisym.
  destruct (b ?= a)%string; simpl; auto.
Qed.

Lemma path_compare_eq (p q : Path) : path_compare p q = Eq → p = q.
Proof.
  revert q. induction p as [|a p IH]; intros [|b q]; simpl; try done.
  destruct (a ?= b)%string eqn:Hab; try done.
  apply String.compare_eq_iff in Hab as ->. intros ?. f_equal. auto.
Qed.

Lemma path_compare_refl (p : Path) : path_compare p p = Eq.
Proof. induction p as [|a p IH]; simpl; [done|]. by rewrite string_compare_refl. Qed.

Lemma path_compare_lt_trans (p q r : Path) :
  path_compare p q = Lt → path_compare q r = Lt → path_compare p r = Lt.
Proof.
  revert q r. induction p as [|a p IH]; intros [|b q] [|c r]; simpl; try done.
  destruct (a ?= b)%string eqn:Hab; try done.
  - apply String.compare_eq_iff in Hab as ->.
    destruct (b ?= c)%string; try done. apply IH.
  - destruct (b ?= c)%string eqn:Hbc; try done.
    + apply String.compare_eq_iff in Hbc as ->. by rewrite Hab.
    + by rewrite (string_compare_lt_trans _ _ _ Hab Hbc).
Qed.

#[global] Instance path_le_total : Total path_le.
Proof.
  intros p q. unfold path_le. rewrite (path_compare_antisym q p).
  destruct (path_compare p q); simpl; auto.
Qed.

#[global] Instance path_le_trans : Transitive path_le.
Proof.
  intros p q r. unfold path_le. intros Hpq Hqr.
  destruct (path_compare p q) eqn:E1; [| |done].
  - by apply path_compare_eq in E1 as ->.
  - destruct (path_compare q r) eqn:E2; [| |done].
    + apply path_compare_eq in E2 as <-. by rewrite E1.
    + by rewrite (path_compare_lt_trans _ _ _ E1 E2).
Qed.

#[global] Instance path_le_antisymm : AntiSymm (=) path_le.
Proof.
  intros p q. unfold path_le. rewrite (path_compare_antisym q p).
  destruct (path_compare p q) eqn:E; simpl; try done.
  intros _ _. by apply path_compare_eq.
Qed.

Lemma sorted_set_Permutation (files : list Path) :
  sorted_set files ≡ₚ elements (list_to_set files : gset Path).
Proof. apply merge_sort_Permutation. Qed.

Lemma elem_of_sorted_set (files : list Path) (p : Path) :
  p ∈ sorted_set files ↔ p ∈ files.
Proof. rewrite sorted_set_Permutation. set_solver. Qed.

Lemma NoDup_sorted_set (files : list Path) : NoDup (sorted_set files).
Proof. rewrite sorted_set_Permutation. apply NoDup_elements. Qed.

Lemma Sorted_sorted_set (files : list Path) :
  StronglySorted path_le (sorted_set files).
Proof. apply StronglySorted_merge_sort; apply _. Qed.

(** The result depends on the set of the collected paths only, not on
    the order in which the filesystem was enumerated or on repetitions. *)
Lemma sorted_set_ext (files files' : list Path) :
  (∀ p, p ∈ files ↔ p ∈ files') → sorted_set files = sorted_set files'.
Proof.
  intros H. unfold sorted_set.
  assert ((list_to_set files : gset Path) = list_to_set files') as ->; [|done].
  apply set_eq. intros p. by rewrite !elem_of_list_to_set.
Qed.

(** Strictly increasing, which is sorted and free of duplicates at once. *)
Lemma sorted_set_strict (files : list Path) :
  StronglySorted path_lt (sorted_set files).
Proof.
  pose proof (NoDup_sorted_set files) as Hnd.
  pose proof (Sorted_sorted_set files) as Hs.
  induction Hs as [|p l Hl IH Hall]; [constructor|].
  apply NoDup_cons in Hnd as [Hp Hnd].
  constructor; [auto|].
  apply Forall_forall. intros q Hq.
  rewrite Forall_forall in Hall. specialize (Hall q Hq).
  unfold path_le in Hall. unfold path_lt.
  destruct (path_compare p q) eqn:E; [|done|done].
  apply path_compare_eq in E as ->. done.
Qed.

End PathOrder.

(* ================================================================== *)
(** * Globs and enumeration *)
(* ================================================================== *)

Section Globs.

Lemma fnmatch_literal (pat name : string) :
  literal pat → fnmatch pat name = true ↔ name = pat.
Proof.
  revert name. induction pat as [|c pat IH]; intros name Hlit; simpl.
  - destruct name; naive_solver.
  - destruct Hlit as (Hs & Hq & Hlit).
    apply Ascii.eqb_neq in Hs, Hq. rewrite Hs, Hq.
    destruct name as [|d name]; [naive_solver|].
    rewrite andb_true_iff, Ascii.eqb_eq, (IH _ Hlit). naive_solver.
Qed.

(** [*ext] matches the names that end in [ext]. *)
Lemma fnmatch_star (ext name : string) :
  literal ext →
  fnmatch (String "*" ext) name = true ↔ ∃ stem, name = stem +:+ ext.
Proof.
  intros Hlit. simpl.
  induction name as [|d name IH].
  - rewrite orb_false_r, (fnmatch_literal _ _ Hlit). split.
    + intros <-. by exists "".
    + intros ([|??] & H); simpl in H; [done|discriminate].
  - rewrite orb_true_iff, (fnmatch_literal _ _ Hlit), IH. split.
    + intros [<-|(stem & ->)]; [by exists ""|by exists (String d stem)].
    + intros ([|d' stem] & H); simpl in H; [by left|].
      injection H as -> ->. right. by exists stem.
Qed.

Lemma elem_of_rglob (fs : FS) (d : Path) (pattern : string) (p : Path) :
  p ∈ rglob fs d pattern ↔
  p ∈ fs_entries fs ∧ below d p = true ∧ path_match p pattern = true.
Proof. unfold rglob. rewrite list_elem_of_filter. naive_solver. Qed.

Lemma elem_of_flat_map {A B} (f : A → list B) (l : list A) (b : B) :
  b ∈ flat_map f l ↔ ∃ a, a ∈ l ∧ b ∈ f a.
Proof.
  rewrite list_elem_of_In, in_flat_map.
  split; intros (a & H1 & H2); exists a; rewrite ?list_elem_of_In in *; auto.
Qed.

(** [below d e] says that [e] is [d] followed by at least one component. *)
Lemma below_spec (d e : Path) :
  below d e = true ↔ ∃ c rest, e = (d ++ c :: rest)%list.
Proof.
  revert e. induction d as [|a d IH]; intros [|b e]; simpl.
  - split; [done|]. intros (c & rest & ?). done.
  - split; [eauto|done].
  - split; [done|]. intros (c & rest & ?). done.
  - rewrite andb_true_iff, bool_decide_eq_true, IH. split.
    + intros (-> & c & rest & ->). eauto.
    + intros (c & rest & H). injection H as -> ->. eauto.
Qed.

Lemma relative_to_app (root rel : Path) : relative_to (root ++ rel) root = Some rel.
Proof. induction root as [|r root IH]; simpl; [done|]. by rewrite decide_True. Qed.

Lemma relative_to_Some (p root rel : Path) :
  relative_to p root = Some rel → p = (root ++ rel)%list.
Proof.
  revert p. induction root as [|r root IH]; intros p; simpl.
  - by intros [= ->].
  - destruct p as [|c p]; [done|]. case_decide; [|done].
    subst. intros H. f_equal. auto.
Qed.

End Globs.

(* ================================================================== *)
(** * The file set resolver *)
(* ================================================================== *)

Section Resolver.

Lemma resolver_is_sorted_set (fs : FS) (root : Path)
    (file_path file_type directory : option string) (files : list Path) :
  get_files_to_reindex fs root file_path file_type directory = inr files →
  ∃ raw, files = sorted_set raw.
Proof.
  unfold get_files_to_reindex. intros H.
  repeat case_match; simplify_eq; eauto.
Qed.

Lemma fs_exists_ext (fs fs' : FS) (p : Path) :
  (∀ q, q ∈ fs_entries fs' ↔ q ∈ fs_entries fs) →
  fs_exists fs' p = fs_exists fs p.
Proof. intros H. unfold fs_exists. apply bool_decide_ext, H. Qed.

Lemma rglob_if_exists_ext (fs fs' : FS) (root : Path) (dir_name pattern : string) :
  (∀ q, q ∈ fs_entries fs' ↔ q ∈ fs_entries fs) →
  ∀ p, p ∈ rglob_if_exists fs' root dir_name pattern
       ↔ p ∈ rglob_if_exists fs root dir_name pattern.
Proof.
  intros H p. unfold rglob_if_exists. rewrite (fs_exists_ext fs fs') by done.
  destruct (fs_exists fs _); [|done]. rewrite !elem_of_rglob, H. done.
Qed.

Lemma flat_map_same {A} (f g : A → list Path) (l : list A) :
  (∀ a p, p ∈ f a ↔ p ∈ g a) →
  ∀ p, p ∈ flat_map f l ↔ p ∈ flat_map g l.
Proof.
  intros H p. rewrite !elem_of_flat_map.
  split; intros (a & ? & ?); exists a; split; auto; by apply H.
Qed.

(** The resolver reads the filesystem as a set of paths: the order in
    which entries are enumerated does not show in its result. *)
Lemma resolver_ext (fs fs' : FS) (root : Path)
    (file_path file_type directory : option string) :
  (∀ q, q ∈ fs_entries fs' ↔ q ∈ fs_entries fs) →
  get_files_to_reindex fs' root file_path file_type directory
  = get_files_to_reindex fs root file_path file_type directory.
Proof.
  intros H. unfold get_files_to_reindex.
  destruct (truthy file_path) as [fp|].
  { by rewrite (fs_exists_ext fs fs'). }
  destruct (truthy file_type) as [ft|].
  { destruct (type_mapping !! ft) as [dir_pattern|]; [|done].
    f_equal. apply sorted_set_ext.
    case_decide.
    - apply flat_map_same. intros a. by apply rglob_if_exists_ext.
    - by apply rglob_if_exists_ext. }
  destruct (truthy directory) as [d|].
  { rewrite (fs_exists_ext fs fs') by done.
    destruct (negb _); [done|].
    destruct (List.find _ _) as [[? mapping]|]; [|done].
    f_equal. apply sorted_set_ext. intros p. by rewrite !elem_of_rglob, H. }
  f_equal. apply sorted_set_ext.
  apply flat_map_same. intros cm. apply flat_map_same. intros a.
  by apply rglob_if_exists_ext.
Qed.

(** C6. Whatever the project root and the selection mode, the list the
    resolver returns has no duplicate, is sorted in the lexicographic order
    of paths, and is the same for any enumeration order of the same
    filesystem: repeated runs process the files in the same order. *)
Theorem resolver_sorted_without_duplicates (fs : FS) (root : Path)
    (file_path file_type directory : option string) (files : list Path) :
  get_files_to_reindex fs root file_path file_type directory = inr files →
  NoDup files ∧ StronglySorted path_le files ∧ StronglySorted path_lt files ∧
  ∀ fs', (∀ q, q ∈ fs_entries fs' ↔ q ∈ fs_entries fs) →
         get_files_to_reindex fs' root file_path file_type directory = inr files.
Proof.
  intros H. destruct (resolver_is_sorted_set _ _ _ _ _ _ H) as [raw ->].
  split; [apply NoDup_sorted_set|].
  split; [apply Sorted_sorted_set|].
  split; [apply sorted_set_strict|].
  intros fs' Hfs'. by rewrite (resolver_ext fs fs').
Qed.

Lemma joinpath_adrs (root : Path) :
  joinpath root "docs/adrs" = (root ++ ["docs"; "adrs"])%list.
Proof. reflexivity. Qed.

Lemma joinpath_business (root : Path) :
  joinpath root "docs/business" = (root ++ ["docs"; "business"])%list.
Proof. reflexivity. Qed.

Lemma path_match_star (p : Path) (ext : string) :
  literal ext → path_match p (String "*" ext) = true ↔ has_ext p ext.
Proof.
  intros Hlit. unfold path_match, has_ext.
  destruct (last p) as [name|]; [|naive_solver].
  rewrite (fnmatch_star _ _ Hlit). naive_solver.
Qed.

(** C7. Selecting by type ["md"] returns, without duplicates, exactly the
    [*.md] entries found recursively under [docs/adrs] and under
    [docs/business]; a directory that does not exist contributes nothing. *)
Theorem md_selection_is_union_of_both_directories (fs : FS) (root : Path)
    (directory : option string) :
  ∃ files,
    get_files_to_reindex fs root None (Some "md") directory = inr files ∧
    NoDup files ∧
    ∀ p, p ∈ files ↔
      ∃ d, d ∈ [["docs"; "adrs"]; ["docs"; "business"]] ∧
           fs_exists fs (root ++ d) = true ∧
           p ∈ fs_entries fs ∧ below (root ++ d) p = true ∧ has_ext p ".md".
Proof.
  eexists. split; [reflexivity|]. split; [apply NoDup_sorted_set|].
  intros p. rewrite elem_of_sorted_set. simpl.
  unfold rglob_if_exists. rewrite joinpath_adrs, joinpath_business.
  rewrite app_nil_r, elem_of_app.
  assert (Hlit : literal ".md") by (simpl; done).
  split.
  - intros [Hp|Hp]; [exists ["docs"; "adrs"]|exists ["docs"; "business"]];
      (destruct (fs_exists fs _) eqn:He; [|by apply elem_of_nil in Hp]);
      apply elem_of_rglob in Hp as (? & ? & ?%(path_match_star _ _ Hlit));
      set_solver.
  - intros (d & Hd & He & Hin & Hb & Hext).
    apply (path_match_star _ _ Hlit) in Hext.
    apply elem_of_cons in Hd as [->|Hd]; [left|right].
    + rewrite He. by apply elem_of_rglob.
    + apply list_elem_of_singleton in Hd as ->. rewrite He. by apply elem_of_rglob.
Qed.

End Resolver.

(* ================================================================== *)
(** * The path classifier *)
(* ================================================================== *)

Section Classifier.

Lemma first_hit_pick {A} (pick : string → Mapping → A) (file_path rel : Path)
    (table : list (string * Mapping)) :
  first_hit pick file_path rel table
  = (fun cm => pick cm.1 cm.2) <$> first_hit (fun n m => (n, m)) file_path rel table.
Proof.
  induction table as [|[n m] table IH]; simpl; [done|].
  by destruct (mapping_hits file_path rel m).
Qed.

Lemma first_hit_Some (file_path rel : Path) (table : list (string * Mapping))
    (cm : string * Mapping) :
  first_hit (fun n m => (n, m)) file_path rel table = Some cm →
  cm ∈ table ∧ mapping_hits file_path rel cm.2 = true.
Proof.
  induction table as [|[n m] table IH]; simpl; [done|].
  destruct (mapping_hits file_path rel m) eqn:Hm.
  - intros [= <-]. split; [left|done].
  - intros H. destruct (IH H). split; [by right|done].
Qed.

Lemma first_hit_None (file_path rel : Path) (table : list (string * Mapping)) :
  first_hit (fun n m => (n, m)) file_path rel table = None ↔
  ∀ cm, cm ∈ table → mapping_hits file_path rel cm.2 = false.
Proof.
  induction table as [|[n m] table IH]; simpl.
  - split; [|done]. intros _ cm H. by apply elem_of_nil in H.
  - destruct (mapping_hits file_path rel m) eqn:Hm.
    + split; [done|]. intros H. specialize (H (n, m)). simpl in H.
      rewrite H in Hm; [done|left].
    + rewrite IH. split.
      * intros H cm [->|?]%elem_of_cons; auto.
      * intros H cm ?. apply H. by right.
Qed.

Lemma table_names_types (cm : string * Mapping) :
  cm ∈ COLLECTION_MAPPINGS →
  truthy (Some cm.1) = Some cm.1 ∧ truthy (Some (type_tag cm.2)) = Some (type_tag cm.2).
Proof.
  unfold COLLECTION_MAPPINGS. rewrite !elem_of_cons, elem_of_nil.
  intros [->|[->|[->|[->|[]]]]]; done.
Qed.

(** The three ways classification can go, for both lookups at once. *)
Lemma classify_cases (file_path project_root : Path) :
  (relative_to file_path project_root = None
   ∧ get_collection_for_file file_path project_root = None
   ∧ get_file_type file_path project_root = None)
  ∨ (∃ rel, relative_to file_path project_root = Some rel
      ∧ classify file_path rel = None
      ∧ get_collection_for_file file_path project_root = Some None
      ∧ get_file_type file_path project_root = Some None)
  ∨ (∃ rel cm, relative_to file_path project_root = Some rel
      ∧ classify file_path rel = Some cm
      ∧ cm ∈ COLLECTION_MAPPINGS
      ∧ get_collection_for_file file_path project_root = Some (Some cm.1)
      ∧ get_file_type file_path project_root = Some (Some (type_tag cm.2))).
Proof.
  unfold get_collection_for_file, get_file_type, classify.
  destruct (relative_to file_path project_root) as [rel|];
    [right|left; repeat split; reflexivity].
  rewrite (first_hit_pick (fun n _ => n)), (first_hit_pick (fun _ m => type_tag m)).
  destruct (first_hit (fun n m => (n, m)) _ _ _) as [cm|] eqn:Hc.
  - right. exists rel, cm. destruct (first_hit_Some _ _ _ _ Hc) as [Hin _].
    repeat split; try reflexivity; assumption.
  - left. exists rel. repeat split; try reflexivity; assumption.
Qed.

End Classifier.

(* ================================================================== *)
(** * Reconciling one file *)
(* ================================================================== *)

Section ReindexFile.
Variable faults : Faults.
Variable fs : FS.

Lemma store_call_cases {A} (c : Call) (run : Store → option (Store * A)) (w : World) :
  (store_call faults c run w = (mkWorld (store w) (calls w ++ [c]), inl (StoreError c))
   ∧ (faults (calls w) c = true ∨ run (store w) = None))
  ∨ (∃ s' a, faults (calls w) c = false ∧ run (store w) = Some (s', a)
       ∧ store_call faults c run w = (mkWorld s' (calls w ++ [c]), inr a)).
Proof.
  unfold store_call. destruct (faults (calls w) c); [left; auto|].
  destruct (run (store w)) as [[s' a]|]; [right; eauto|left; auto].
Qed.

(** Every way [reindex_file] can end. *)
Lemma reindex_file_cases (file_path project_root : Path) (w : World) :
  let r := (reindex_file faults fs file_path project_root w).2 in
  r = inl not_relative
  ∨ r = inl (ValueError "Cannot determine collection")
  ∨ r = inl (ReadError file_path)
  ∨ (∃ c, r = inl (StoreError c))
  ∨ r = inr "added"
  ∨ r = inr "updated".
Proof.
  unfold reindex_file, bind, try_except, of_option, ret, raise.
  destruct (classify_cases file_path project_root)
    as [(-> & _)|[(rel & -> & _ & -> & _)|(rel & cm & -> & _ & Hcm & -> & ->)]];
    cbv beta iota zeta; [by left|by right; left|].
  destruct (table_names_types cm Hcm) as [-> ->]. cbv beta iota.
  destruct (fs_text fs file_path); [|by right; right; left].
  unfold get_collection, coll_get, coll_add, coll_update.
  repeat match goal with |- context [store_call faults ?c ?run ?w] =>
    destruct (store_call_cases c run w) as [[-> _]|(? & ? & _ & _ & ->)];
    cbv beta iota
  end;
  repeat match goal with |- context [bool_decide ?P] => destruct (bool_decide P) end;
  repeat match goal with |- context [store_call faults ?c ?run ?w] =>
    destruct (store_call_cases c run w) as [[-> _]|(? & ? & _ & _ & ->)];
    cbv beta iota
  end;
  cbn [snd]; eauto 8.
Qed.

End ReindexFile.

(* ================================================================== *)
(** * Classifier and type resolver agree *)
(* ================================================================== *)

Section Agreement.

(** C9. For every path the collection classifier and the file-type
    resolver agree: one raises exactly when the other does, one returns
    [None] exactly when the other does, and when they return a collection
    name and a type these come from one entry of the mapping table.  Hence
    [reindex_file] never ends in its "Cannot determine file type" error. *)
Theorem collection_and_type_agree (file_path project_root : Path) :
  (get_collection_for_file file_path project_root = None
   ↔ get_file_type file_path project_root = None)
  ∧ ((∃ c, get_collection_for_file file_path project_root = Some (Some c))
     ↔ (∃ t, get_file_type file_path project_root = Some (Some t)))
  ∧ (∀ c t,
       get_collection_for_file file_path project_root = Some (Some c) →
       get_file_type file_path project_root = Some (Some t) →
       ∃ m, (c, m) ∈ COLLECTION_MAPPINGS ∧ t = type_tag m)
  ∧ (∀ faults fs w,
       (reindex_file faults fs file_path project_root w).2
       ≠ inl (ValueError "Cannot determine file type")).
Proof.
  split; [|split; [|split]].
  - destruct (classify_cases file_path project_root)
      as [(_ & -> & ->)|[(rel & _ & _ & -> & ->)|(rel & cm & _ & _ & _ & -> & ->)]];
      done.
  - destruct (classify_cases file_path project_root)
      as [(_ & -> & ->)|[(rel & _ & _ & -> & ->)|(rel & cm & _ & _ & _ & -> & ->)]];
      split; intros [? ?]; try done; eauto.
  - intros c t.
    destruct (classify_cases file_path project_root)
      as [(_ & -> & ->)|[(rel & _ & _ & -> & ->)|(rel & [n m] & _ & _ & Hin & -> & ->)]];
      try done.
    simpl. intros [= <-] [= <-]. eauto.
  - intros faults fs w.
    destruct (reindex_file_cases faults fs file_path project_root w)
      as [H|[H|[H|[[c H]|[H|H]]]]]; rewrite H; done.
Qed.

End Agreement.

(* ================================================================== *)
(** * The loop over the selected files *)
(* ================================================================== *)

Section Loop.
Variable faults : Faults.
Variable fs : FS.
Variable project_root : Path.

(** What [reindex_file] returns when it returns. *)
Lemma reindex_file_returns (file_path : Path) (w : World) (r : string) :
  (reindex_file faults fs file_path project_root w).2 = inr r →
  r = "added" ∨ r = "updated".
Proof.
  destruct (reindex_file_cases faults fs file_path project_root w)
    as [H|[H|[H|[[c H]|[H|H]]]]]; rewrite H; intros [= <-]; auto; done.
Qed.

(** One turn of the loop: the world moves as [reindex_file] moves it, and
    exactly one counter goes up. *)
Lemma reindex_one_cases (file_path : Path) (stats : Stats) (w : World) :
  let res := reindex_file faults fs file_path project_root w in
  let out := reindex_one faults fs project_root file_path stats w in
  out.1 = res.1 ∧
  ((res.2 = inr "added" ∧
    out.2 = mkStats (S (added stats)) (updated stats) (skipped stats) (errors stats))
   ∨ (res.2 = inr "updated" ∧
      out.2 = mkStats (added stats) (S (updated stats)) (skipped stats) (errors stats))
   ∨ ((∃ e, res.2 = inl e) ∧ out.2 = stats_error stats)).
Proof.
  unfold reindex_one.
  pose proof (reindex_file_returns file_path w) as Hr.
  destruct (reindex_file faults fs file_path project_root w) as [w' [e|r]]; simpl in *.
  - split; [done|]. right; right. eauto.
  - destruct (Hr r eq_refl) as [-> | ->]; simpl; auto.
Qed.

Lemma reindex_loop_skipped (files : list Path) (stats : Stats) (w : World) :
  skipped (reindex_loop faults fs project_root files stats w).2 = skipped stats.
Proof.
  revert stats w. induction files as [|f files IH]; intros stats w; simpl; [done|].
  destruct (reindex_one_cases f stats w) as [_ H].
  destruct (reindex_one faults fs project_root f stats w) as [w' stats'].
  rewrite IH. simpl in H.
  destruct H as [[_ ->]|[[_ ->]|[_ ->]]]; done.
Qed.

(** A summary is what the loop computes from zeroed counters. *)
Lemma reindex_command_summary (file_path type directory : option string)
    (dry_run interactive confirm : bool) (w w' : World) (stats : Stats) :
  reindex_command faults fs project_root file_path type directory
                  dry_run interactive confirm w = (w', Summary stats) →
  ∃ w0 files,
    get_files_to_reindex fs project_root file_path type directory = inr files ∧
    dry_run = false ∧
    reindex_loop faults fs project_root files (mkStats 0 0 0 0) w0 = (w', stats).
Proof.
  unfold reindex_command, bind, ret.
  destruct (negb _); [done|].
  destruct (open_client faults w) as [w1 [e|?]]; [done|].
  destruct (ensure_collections faults w1) as [w2 [e|?]]; [done|].
  destruct (get_files_to_reindex _ _ _ _ _) as [e|files]; [done|].
  case_decide; [done|].
  destruct dry_run.
  { destruct (display_dry_run_report _ _ _ _) as [? [?|?]]; done. }
  destruct (interactive && negb confirm); [done|].
  destruct (reindex_loop _ _ _ _ _ _) as [w3 st] eqn:Hl.
  intros [= <- <-]. eauto.
Qed.

End Loop.

(* ================================================================== *)
(** * Failure isolation *)
(* ================================================================== *)

Section Isolation.
Variable faults : Faults.
Variable fs : FS.
Variable project_root : Path.

Lemma file_results_length (files : list Path) (w : World) :
  length (file_results faults fs project_root files w) = length files.
Proof. revert w. induction files; intros w; simpl; auto. Qed.

Lemma file_results_shape (files : list Path) (w : World) :
  Forall (fun r => (∃ e, r = inl e) ∨ reconciled r)
         (file_results faults fs project_root files w).
Proof.
  revert w. induction files as [|f files IH]; intros w; simpl; constructor; [|apply IH].
  destruct (reindex_file faults fs f project_root w) as [w' [e|r]] eqn:H; simpl; [eauto|].
  right. destruct (reindex_file_returns faults fs project_root f w r) as [-> | ->];
    [by rewrite H|by left|by right].
Qed.

(** The counters after the loop: errors count the files that raised, and
    every other file went to [added] or [updated]. *)
Lemma reindex_loop_tally (files : list Path) (stats : Stats) (w : World) :
  let rs := file_results faults fs project_root files w in
  let st := (reindex_loop faults fs project_root files stats w).2 in
  errors st = errors stats + count_errors rs ∧
  added st + updated st + count_errors rs
  = added stats + updated stats + length files.
Proof.
  revert stats w. induction files as [|f files IH]; intros stats w; simpl; [lia|].
  destruct (reindex_one_cases faults fs project_root f stats w) as [Hw H].
  destruct (reindex_one faults fs project_root f stats w) as [w' stats'].
  simpl in Hw, H. subst w'. specialize (IH stats' (reindex_file faults fs f project_root w).1).
  simpl in IH. destruct IH as [IH1 IH2].
  destruct H as [[Hr ->]|[[Hr ->]|[[e Hr] ->]]]; rewrite Hr; simpl in *; lia.
Qed.

Lemma count_errors_none (rs : list (Exn + string)) :
  (∀ j e, rs !! j ≠ Some (inl e)) → count_errors rs = 0.
Proof.
  induction rs as [|[e|r] rs IH]; intros H; simpl; [done| |].
  - by destruct (H 0 e).
  - apply IH. intros j e. apply (H (S j) e).
Qed.

Lemma count_errors_one (rs : list (Exn + string)) (i : nat) (e : Exn) :
  rs !! i = Some (inl e) →
  (∀ j e', rs !! j = Some (inl e') → j = i) →
  count_errors rs = 1.
Proof.
  revert i. induction rs as [|[e0|r] rs IH]; intros i Hi Hu; [done| |]; simpl.
  - f_equal. apply count_errors_none. intros j e' Hj.
    pose proof (Hu 0 e0 eq_refl) as <-. by pose proof (Hu (S j) e' Hj).
  - destruct i as [|i]; [done|]. apply (IH i Hi).
    intros j e' Hj. by pose proof (Hu (S j) e' Hj) as [= ->].
Qed.

(** C1. An exception raised while one file is reconciled is caught at that
    file: it adds one to [errors] and the loop goes on with the files that
    remain, so every file of the batch gets its result.  In particular, when
    exactly one of N files raises, the summary has [errors = 1] and each of
    the other N-1 files is added or updated. *)
Theorem failure_is_isolated_per_file (files : list Path) (w : World) :
  let rs := file_results faults fs project_root files w in
  let st := (reindex_loop faults fs project_root files (mkStats 0 0 0 0) w).2 in
  length rs = length files
  ∧ errors st = count_errors rs
  ∧ added st + updated st = length files - count_errors rs
  ∧ (∀ j r, rs !! j = Some r → (∃ e, r = inl e) ∨ reconciled r)
  ∧ (∀ i e,
       rs !! i = Some (inl e) →
       (∀ j e', rs !! j = Some (inl e') → j = i) →
       errors st = 1
       ∧ added st + updated st = length files - 1
       ∧ ∀ j, j < length files → j ≠ i →
              ∃ r, rs !! j = Some r ∧ reconciled r).
Proof.
  intros rs st.
  destruct (reindex_loop_tally files (mkStats 0 0 0 0) w) as [He Hau].
  fold rs st in He, Hau. simpl in He, Hau.
  pose proof (file_results_length files w) as Hlen. fold rs in Hlen.
  pose proof (file_results_shape files w) as Hshape. fold rs in Hshape.
  rewrite Forall_lookup in Hshape.
  split; [done|]. split; [done|]. split; [lia|]. split; [exact Hshape|].
  intros i e Hi Hu. rewrite (count_errors_one rs i e Hi Hu) in He, Hau.
  split; [done|]. split; [lia|].
  intros j Hj Hne. rewrite <- Hlen in Hj.
  destruct (lookup_lt_is_Some_2 rs j Hj) as [r Hr]. exists r. split; [done|].
  destruct (Hshape j r Hr) as [[e' ->]|?]; [|done].
  by destruct Hne; apply (Hu j e').
Qed.

(** C8. [reindex_file] returns ["added"] or ["updated"] and nothing else,
    so the loop never touches the [skipped] counter and every summary
    reports [skipped = 0], whether or not the content changed. *)
Theorem skipped_is_never_reported :
  (∀ file_path w r,
     (reindex_file faults fs file_path project_root w).2 = inr r →
     r = "added" ∨ r = "updated")
  ∧ (∀ files stats w,
       skipped (reindex_loop faults fs project_root files stats w).2
       = skipped stats)
  ∧ (∀ file_path type directory dry_run interactive confirm w stats,
       (reindex_command faults fs project_root file_path type directory
                        dry_run interactive confirm w).2 = Summary stats →
       skipped stats = 0).
Proof.
  split; [apply reindex_file_returns|]. split; [apply reindex_loop_skipped|].
  intros file_path type directory dry_run interactive confirm w stats H.
  destruct (reindex_command _ _ _ _ _ _ _ _ _ _) as [w' r] eqn:Hc.
  simpl in H. subst r.
  apply reindex_command_summary in Hc as (w0 & files & _ & _ & Hl).
  pose proof (reindex_loop_skipped faults fs project_root files (mkStats 0 0 0 0) w0) as Hs.
  by rewrite Hl in Hs.
Qed.

End Isolation.

(* ================================================================== *)
(** * Add or update *)
(* ================================================================== *)

Section Reconcile.
Variable faults : Faults.

Lemma reindex_file_classified (fs : FS) (file_path project_root rel : Path)
    (c content : string) :
  relative_to file_path project_root = Some rel →
  get_collection_for_file file_path project_root = Some (Some c) →
  fs_text fs file_path = Some content →
  ∃ t, get_file_type file_path project_root = Some (Some t) ∧
       reindex_file faults fs file_path project_root
       = reconcile faults c (path_str rel) t content.
Proof.
  intros Hrel Hc Htext.
  destruct (classify_cases file_path project_root)
    as [(_ & H & _)|[(? & _ & _ & H & _)|(rel' & cm & Hrel' & _ & Hcm & H & Ht)]];
    rewrite H in Hc; try done.
  injection Hc as Hc. subst c. exists (type_tag cm.2). split; [done|].
  unfold reindex_file, reconcile, bind at 1 2 3 4 5 6, of_option, ret, raise.
  rewrite Hrel, H, Ht, Htext. cbv beta iota.
  destruct (table_names_types cm Hcm) as [-> ->]. reflexivity.
Qed.

Lemma store_call_ok {A} (c : Call) (run : Store → option (Store * A))
    (w : World) (s' : Store) (a : A) :
  faults (calls w) c = false → run (store w) = Some (s', a) →
  store_call faults c run w = (mkWorld s' (calls w ++ [c]), inr a).
Proof. intros Hf Hr. unfold store_call. by rewrite Hf, Hr. Qed.

Lemma store_call_raises {A} (c : Call) (run : Store → option (Store * A))
    (w : World) :
  faults (calls w) c = true ∨ run (store w) = None →
  store_call faults c run w
  = (mkWorld (store w) (calls w ++ [c]), inl (StoreError c)).
Proof.
  intros H. unfold store_call. destruct (faults (calls w) c); [done|].
  destruct H as [?| ->]; done.
Qed.

(** A successful [get_collection] finds the collection and changes
    nothing but the log. *)
Lemma get_collection_inv (name h : string) (w : World) :
  (get_collection faults name w).2 = inr h →
  h = name ∧ is_Some (store w !! name) ∧
  get_collection faults name w
  = (mkWorld (store w) (calls w ++ [GetCollection name]), inr name).
Proof.
  unfold get_collection, store_call.
  destruct (faults (calls w) _); [done|].
  destruct (store w !! name) eqn:Hs; [|done]. simpl. intros [= <-]. eauto.
Qed.

End Reconcile.

Section LookupFailure.
Variable faults : Faults.

(** C5. When the existence check raises, [reindex_file] takes the
    document for absent: it goes on to issue the insert, and returns
    ["added"] as soon as that insert succeeds.  The exception of the lookup
    is not the result of [reindex_file]. *)
Theorem lookup_failure_is_treated_as_absent (fs : FS)
    (file_path project_root rel : Path) (c content : string)
    (w : World) (e : Exn) :
  relative_to file_path project_root = Some rel →
  get_collection_for_file file_path project_root = Some (Some c) →
  fs_text fs file_path = Some content →
  (get_collection faults c w).2 = inr c →
  (coll_get faults c (path_str rel) (get_collection faults c w).1).2 = inl e →
  ∃ t, get_file_type file_path project_root = Some (Some t) ∧
    let id := path_str rel in
    let add := CollAdd c id content (mkMetadata id t c) in
    let res := reindex_file faults fs file_path project_root w in
    calls res.1 = (calls w ++ [GetCollection c; CollGet c id; add])%list
    ∧ res.2 = (if faults (calls w ++ [GetCollection c; CollGet c id]) add
               then inl (StoreError add) else inr "added")
    ∧ res.2 ≠ inl e.
Proof.
  intros Hrel Hc Htext Hget Hlookup.
  destruct (reindex_file_classified faults fs _ _ _ _ _ Hrel Hc Htext) as (t & Ht & ->).
  exists t. split; [done|]. cbv zeta.
  apply get_collection_inv in Hget as (_ & [docs Hdocs] & Hget).
  rewrite Hget in Hlookup. cbn [fst] in Hlookup.
  unfold reconcile, bind, try_except, ret. rewrite Hget.
  unfold coll_get in *.
  match type of Hlookup with (store_call faults ?k ?run ?w').2 = _ =>
    destruct (store_call_cases faults k run w') as [[Hk _]|(s2 & ids & _ & _ & Hk)];
    rewrite Hk in *; cbn [snd] in Hlookup; [|done] end.
  injection Hlookup as Hlookup. subst e.
  unfold coll_add, store_call. cbn [store calls].
  rewrite <- !app_assoc. cbn [app].
  destruct (faults _ (CollAdd _ _ _ _)); cbn [fst snd calls]; [done|].
  rewrite Hdocs. cbn [mbind option_bind].
  destruct (docs !! path_str rel); done.
Qed.

End LookupFailure.

(* ================================================================== *)
(** * Reconciling the same file twice *)
(* ================================================================== *)

Section Twice.
Variable faults : Faults.

(** A file that is not stored yet is inserted, whether the existence
    check answers or raises, provided the handle and the insert succeed. *)
Lemma reconcile_absent (c id t content : string) (w : World)
    (docs : gmap string Document) :
  let md := mkMetadata id t c in
  let add := CollAdd c id content md in
  store w !! c = Some docs →
  docs !! id = None →
  faults (calls w) (GetCollection c) = false →
  faults (calls w ++ [GetCollection c; CollGet c id]) add = false →
  reconcile faults c id t content w
  = (mkWorld (<[c := <[id := mkDocument content md]> docs]> (store w))
             (calls w ++ [GetCollection c; CollGet c id; add]),
     inr "added").
Proof.
  intros md add Hdocs Hid Hf1 Hf3. subst md add.
  unfold reconcile, bind, try_except, ret.
  unfold get_collection. rewrite (store_call_ok faults _ _ w (store w) c Hf1)
    by (by rewrite Hdocs).
  unfold coll_get, coll_add, store_call. cbn [store calls].
  rewrite Hdocs. cbn [mbind option_bind]. rewrite Hid.
  destruct (faults _ (CollGet c id)); norm_world;
    rewrite ?bool_decide_eq_false_2 by lia; norm_world;
    rewrite Hf3, Hdocs; norm_world; rewrite Hid; reflexivity.
Qed.

(** A stored file is replaced when the handle, the existence check and
    the update succeed. *)
Lemma reconcile_present (c id t content : string) (w : World)
    (docs : gmap string Document) :
  let md := mkMetadata id t c in
  let upd := CollUpdate c id content md in
  store w !! c = Some docs →
  is_Some (docs !! id) →
  faults (calls w) (GetCollection c) = false →
  faults (calls w ++ [GetCollection c]) (CollGet c id) = false →
  faults (calls w ++ [GetCollection c; CollGet c id]) upd = false →
  reconcile faults c id t content w
  = (mkWorld (<[c := <[id := mkDocument content md]> docs]> (store w))
             (calls w ++ [GetCollection c; CollGet c id; upd]),
     inr "updated").
Proof.
  intros md upd Hdocs [d Hid] Hf1 Hf2 Hf3. subst md upd.
  unfold reconcile, bind, try_except, ret.
  unfold get_collection. rewrite (store_call_ok faults _ _ w (store w) c Hf1)
    by (by rewrite Hdocs).
  unfold coll_get, coll_update, store_call. cbn [store calls].
  rewrite Hf2, Hdocs. cbn [mbind option_bind]. rewrite Hid.
  norm_world. rewrite bool_decide_eq_true_2 by lia. norm_world.
  rewrite Hf3, Hdocs. norm_world. rewrite Hid. reflexivity.
Qed.

(** C2. A file that classifies into a collection, reconciled twice in a
    row on the same store with no call failing: the first run returns
    ["added"] when the file is not stored yet, the second run returns
    ["updated"] -- never ["added"] again -- and after the second run the
    document stored under the relative path holds the text the file had at
    that second run, with the three metadata fields. *)
Theorem reconciling_twice_adds_then_updates (fs1 fs2 : FS)
    (file_path project_root rel : Path) (c content1 content2 : string)
    (w : World) (docs : gmap string Document) :
  relative_to file_path project_root = Some rel →
  get_collection_for_file file_path project_root = Some (Some c) →
  fs_text fs1 file_path = Some content1 →
  fs_text fs2 file_path = Some content2 →
  store w !! c = Some docs →
  (∀ log call, calls w `prefix_of` log → faults log call = false) →
  let run1 := reindex_file faults fs1 file_path project_root w in
  let run2 := reindex_file faults fs2 file_path project_root run1.1 in
  (docs !! path_str rel = None → run1.2 = inr "added")
  ∧ (is_Some (docs !! path_str rel) → run1.2 = inr "updated")
  ∧ run2.2 = inr "updated"
  ∧ ∃ t, get_file_type file_path project_root = Some (Some t)
         ∧ doc_at (store run2.1) c (path_str rel)
           = Some (mkDocument content2 (mkMetadata (path_str rel) t c)).
Proof.
  intros Hrel Hc Ht1 Ht2 Hdocs Hnofault.
  destruct (reindex_file_classified faults fs1 _ _ _ _ _ Hrel Hc Ht1) as (t & Ht & ->).
  destruct (reindex_file_classified faults fs2 _ _ _ _ _ Hrel Hc Ht2) as (t' & Ht' & ->).
  rewrite Ht in Ht'. injection Ht' as Ht'. subst t'.
  cbv zeta.
  set (doc1 := mkDocument content1 (mkMetadata (path_str rel) t c)).
  assert (Hrun1 : ∃ l r,
    reconcile faults c (path_str rel) t content1 w
    = (mkWorld (<[c := <[path_str rel := doc1]> docs]> (store w)) (calls w ++ l), inr r)
    ∧ (docs !! path_str rel = None → r = "added")
    ∧ (is_Some (docs !! path_str rel) → r = "updated")).
  { destruct (docs !! path_str rel) as [d|] eqn:Hid.
    - eexists _, "updated". split; [|split; [done|done]].
      apply (reconcile_present c (path_str rel) t content1 w docs Hdocs);
        [by rewrite Hid|apply Hnofault..]; first [reflexivity|by apply prefix_app_r].
    - eexists _, "added". split; [|split; [done|by intros [? ?]]].
      apply (reconcile_absent c (path_str rel) t content1 w docs Hdocs Hid);
        apply Hnofault; first [reflexivity|by apply prefix_app_r]. }
  destruct Hrun1 as (l & r & -> & Hadded & Hupdated). cbn [fst snd].
  match goal with |- context [reconcile faults _ _ _ _ ?w1] =>
    pose proof (reconcile_present c (path_str rel) t content2 w1
                  (<[path_str rel := doc1]> docs)) as H2 end.
  cbv zeta in H2. cbn [store calls] in H2. rewrite H2.
  - split; [by intros ->%Hadded|]. split; [by intros ->%Hupdated|].
    split; [done|]. exists t. split; [done|].
    unfold doc_at. cbn [fst store]. by rewrite !lookup_insert_eq.
  - apply lookup_insert_eq.
  - rewrite lookup_insert_eq. eauto.
  - apply Hnofault. by apply prefix_app_r.
  - apply Hnofault. rewrite <- app_assoc. by apply prefix_app_r.
  - apply Hnofault. rewrite <- app_assoc. by apply prefix_app_r.
Qed.

End Twice.

(* ================================================================== *)
(** * Bootstrapping the collections *)
(* ================================================================== *)

Section Bootstrap.
Variable faults : Faults.

Lemma filter_none {A} (P : A → Prop) `{∀ x, Decision (P x)} (l : list A) :
  (∀ x, x ∈ l → ¬ P x) → filter P l = [].
Proof.
  induction l as [|a l IH]; intros Hl; [done|].
  rewrite filter_cons, decide_False by (apply Hl; left).
  apply IH. intros x Hx. apply Hl. by right.
Qed.

Lemma get_or_create_collection_inv (name : string) (w w' : World) :
  get_or_create_collection faults name w = (w', inr tt) →
  is_Some (store w' !! name)
  ∧ ∀ n, is_Some (store w !! n) → is_Some (store w' !! n).
Proof.
  unfold get_or_create_collection, store_call.
  destruct (faults (calls w) _); [done|].
  destruct (store w !! name) as [docs|] eqn:Hs; intros [= <-]; cbn [store].
  - split; [by rewrite Hs|done].
  - split; [by rewrite lookup_insert_eq|].
    intros n Hn. destruct (decide (n = name)) as [->|Hne].
    + by rewrite lookup_insert_eq.
    + by rewrite lookup_insert_ne.
Qed.

Lemma create_collections_inv (missing : list string) (w w' : World) :
  create_collections faults missing w = (w', inr tt) →
  (∀ n, n ∈ missing → is_Some (store w' !! n))
  ∧ ∀ n, is_Some (store w !! n) → is_Some (store w' !! n).
Proof.
  revert w. induction missing as [|name missing IH]; intros w; simpl.
  - unfold ret. intros [= <-]. split; [|done]. intros n H. by apply elem_of_nil in H.
  - unfold bind.
    destruct (get_or_create_collection faults name w) as [w1 [e|[]]] eqn:H1; [done|].
    intros H2. apply get_or_create_collection_inv in H1 as [Hname Hmono1].
    apply IH in H2 as [Hall Hmono2]. split.
    + intros n [->|Hn]%elem_of_cons; auto.
    + auto.
Qed.

(** After a bootstrap that did not raise, every required collection is
    in the store. *)
Lemma ensure_collections_all_exist (w w1 : World) (created : list string) :
  ensure_collections faults w = (w1, inr created) →
  ∀ n, n ∈ REQUIRED_COLLECTIONS → is_Some (store w1 !! n).
Proof.
  unfold ensure_collections, verify_collections, list_collections, bind, ret.
  unfold store_call at 1.
  destruct (faults (calls w) ListCollections); [done|]. cbn [store calls].
  match goal with |- context [create_collections faults ?l ?w0] =>
    destruct (create_collections faults l w0) as [w2 [e|[]]] eqn:Hc; [done|] end.
  intros [= <- _]. apply create_collections_inv in Hc as [Hall Hmono].
  cbn [store] in Hmono.
  intros n Hn. destruct (decide (n ∈ elements (dom (store w)))) as [Hin|Hnin].
  - apply Hmono. apply elem_of_dom. by apply elem_of_elements in Hin.
  - apply Hall. apply list_elem_of_filter. done.
Qed.

(** C4. Bootstrapping is idempotent: once a run has listed the
    collections, computed the missing ones among the four required names
    and created them, a second run lists the collections, finds none
    missing, and creates nothing. *)
Theorem bootstrap_is_idempotent (w w1 : World) (created : list string) :
  ensure_collections faults w = (w1, inr created) →
  let second := ensure_collections faults w1 in
  store second.1 = store w1
  ∧ calls second.1 = (calls w1 ++ [ListCollections])%list
  ∧ (second.2 = inr [] ∨ second.2 = inl (StoreError ListCollections))
  ∧ (faults (calls w1) ListCollections = false → second.2 = inr []).
Proof.
  intros H1. pose proof (ensure_collections_all_exist _ _ _ H1) as Hall.
  cbv zeta.
  unfold ensure_collections, verify_collections, list_collections, bind, ret.
  unfold store_call.
  destruct (faults (calls w1) ListCollections); cbn [fst snd store calls];
    [split_and!; auto; done|].
  assert (filter (fun col => col ∉ elements (dom (store w1))) REQUIRED_COLLECTIONS = [])
    as ->.
  { apply filter_none. intros n Hn Hnin. apply Hnin.
    apply elem_of_elements, elem_of_dom. auto. }
  cbn [create_collections]. unfold ret. cbn [fst snd store calls].
  split_and!; auto.
Qed.

End Bootstrap.

(* ================================================================== *)
(** * What a run may touch *)
(* ================================================================== *)

Section Frame.
Variable faults : Faults.
Variable K : Call → bool.
Variable E : relation Store.
Context `{!PreOrder E}.

Lemma frame_refl (w : World) : frame K E w w.
Proof. split; [done|]. exists []. by rewrite app_nil_r. Qed.

Lemma frame_trans (w1 w2 w3 : World) :
  frame K E w1 w2 → frame K E w2 w3 → frame K E w1 w3.
Proof.
  intros [HE1 (l1 & Hc1 & Hk1)] [HE2 (l2 & Hc2 & Hk2)]. split; [by etrans|].
  exists (l1 ++ l2)%list. rewrite Hc2, Hc1, app_assoc. split; [done|].
  by apply Forall_app.
Qed.

Lemma respects_ret {A} (a : A) : respects K E (ret a).
Proof. intros w. apply frame_refl. Qed.

Lemma respects_raise {A} (e : Exn) : respects K E (raise e : M A).
Proof. intros w. apply frame_refl. Qed.

Lemma respects_of_option {A} (e : Exn) (o : option A) : respects K E (of_option e o).
Proof. destruct o; [apply respects_ret|apply respects_raise]. Qed.

Lemma respects_bind {A B} (m : M A) (k : A → M B) :
  respects K E m → (∀ a, respects K E (k a)) → respects K E (bind m k).
Proof.
  intros Hm Hk w. unfold bind. specialize (Hm w).
  destruct (m w) as [w' [e|a]]; [done|].
  eapply frame_trans; [exact Hm|apply Hk].
Qed.

Lemma respects_try_except {A} (m : M A) (h : Exn → M A) :
  respects K E m → (∀ e, respects K E (h e)) → respects K E (try_except m h).
Proof.
  intros Hm Hh w. unfold try_except. specialize (Hm w).
  destruct (m w) as [w' [e|a]]; [|done].
  eapply frame_trans; [exact Hm|apply Hh].
Qed.

Lemma respects_store_call {A} (c : Call) (run : Store → option (Store * A)) :
  K c = true →
  (∀ s s' a, run s = Some (s', a) → E s s') →
  respects K E (store_call faults c run).
Proof.
  intros Hc Hrun w.
  destruct (store_call_cases faults c run w) as [[-> _]|(s' & a & _ & Hr & ->)];
    (split; [|exists [c]; split; [done|by constructor]]); cbn [fst store].
  - done.
  - by eapply Hrun.
Qed.

End Frame.

Lemma frame_weaken (K K' : Call → bool) (E E' : relation Store) (w w' : World) :
  (∀ c, K c = true → K' c = true) → (∀ s s', E s s' → E' s s') →
  frame K E w w' → frame K' E' w w'.
Proof.
  intros HK HE [H (l & Hl & HF)]. split; [auto|]. exists l. split; [done|].
  eapply Forall_impl; [exact HF|auto].
Qed.

#[global] Instance same_docs_preorder : PreOrder same_docs.
Proof.
  split; [by intros s c i|]. intros s1 s2 s3 H1 H2 c i. by rewrite H2, H1.
Qed.

Section DryRun.
Variable faults : Faults.

(** The dry-run report only looks documents up. *)
Lemma display_dry_run_report_reads (files : list Path) (project_root : Path) :
  respects is_read eq (display_dry_run_report faults files project_root).
Proof.
  induction files as [|f files IH]; simpl; [apply respects_ret; apply _|].
  apply respects_bind; [apply _|apply respects_of_option; apply _|]. intros rel.
  apply respects_bind; [apply _|apply respects_of_option; apply _|]. intros c.
  destruct (truthy c) as [name|].
  - apply respects_bind; [apply _| |intros h].
    { apply respects_store_call; [apply _|done|]. intros s s' a.
      destruct (s !! name); naive_solver. }
    apply respects_bind; [apply _| |intros row].
    { apply respects_try_except; [apply _| |intros; apply respects_ret; apply _].
      apply respects_bind; [apply _| |intros; apply respects_ret; apply _].
      apply respects_store_call; [apply _|done|]. intros s s' a.
      destruct (s !! h); simpl; naive_solver. }
    apply respects_bind; [apply _|exact IH|intros; apply respects_ret; apply _].
  - apply respects_bind; [apply _|exact IH|intros; apply respects_ret; apply _].
Qed.

Lemma create_collections_frame (missing : list string) :
  respects is_bootstrap same_docs (create_collections faults missing).
Proof.
  induction missing as [|name missing IH]; simpl; [apply respects_ret; apply _|].
  apply respects_bind; [apply _| |intros; exact IH].
  apply respects_store_call; [apply _|done|]. intros s s' a.
  destruct (s !! name) eqn:Hs; intros [= <- _]; [done|].
  intros c i. unfold doc_at. destruct (decide (c = name)) as [->|Hne].
  - by rewrite lookup_insert_eq, Hs, lookup_empty.
  - by rewrite lookup_insert_ne.
Qed.

Lemma ensure_collections_frame :
  respects is_bootstrap same_docs (ensure_collections faults).
Proof.
  unfold ensure_collections, verify_collections, list_collections.
  apply respects_bind; [apply _| |intros missing].
  - apply respects_bind; [apply _| |intros; apply respects_ret; apply _].
    apply respects_store_call; [apply _|done|]. by intros s s' a [= <- _].
  - apply respects_bind; [apply _|apply create_collections_frame|].
    intros; apply respects_ret; apply _.
Qed.

(** C10. In dry-run mode the command issues no insert and no update: the
    report only gets collection handles and looks documents up, creating no
    collection, so after the run every document of the store is what it was
    before (the bootstrap may have created empty collections). *)
Theorem dry_run_changes_no_document (fs : FS) (project_root : Path)
    (file_path type directory : option string) (interactive confirm : bool)
    (w : World) :
  let after :=
    (reindex_command faults fs project_root file_path type directory
                     true interactive confirm w).1 in
  (∀ collection id, doc_at (store after) collection id = doc_at (store w) collection id)
  ∧ (∃ issued, calls after = (calls w ++ issued)%list
               ∧ Forall (fun c => is_write c = false) issued)
  ∧ (∀ files w0,
       let reported := (display_dry_run_report faults files project_root w0).1 in
       store reported = store w0
       ∧ ∃ issued, calls reported = (calls w0 ++ issued)%list
                   ∧ Forall (fun c => is_read c = true) issued).
Proof.
  cbv zeta.
  assert (Hreport : ∀ files w0,
            frame is_read eq w0 (display_dry_run_report faults files project_root w0).1).
  { intros files w0. apply display_dry_run_report_reads. }
  assert (Hrun : frame (fun c => negb (is_write c)) same_docs w
            (reindex_command faults fs project_root file_path type directory
                             true interactive confirm w).1).
  { unfold reindex_command.
    destruct (negb _); [apply frame_refl; apply _|].
    match goal with |- frame _ _ _ (match ?body w with _ => _ end).1 =>
      assert (Hb : frame (fun c => negb (is_write c)) same_docs w (body w).1);
      [|by destruct (body w) as [? [?|?]]] end.
    apply respects_bind; [apply _| |intros _].
    { apply respects_store_call; [apply _|done|]. by intros s s' a [= <- _]. }
    apply respects_bind; [apply _| |intros _].
    { intros w0. eapply frame_weaken; [| |apply ensure_collections_frame]; [|done].
      by intros []. }
    apply respects_bind; [apply _| |intros files].
    { intros w0. apply frame_refl; apply _. }
    case_decide; [apply respects_ret; apply _|].
    apply respects_bind; [apply _| |intros; apply respects_ret; apply _].
    intros w0. eapply frame_weaken; [| |apply Hreport].
    - by intros [].
    - by intros s s' <-. }
  split; [|split].
  - destruct Hrun as [H _]. exact H.
  - destruct Hrun as [_ (l & Hl & HF)]. exists l. split; [done|].
    eapply Forall_impl; [exact HF|]. intros c Hc. by apply negb_true_iff.
  - intros files w0. destruct (Hreport files w0) as [H1 H2]. split; [done|exact H2].
Qed.

End DryRun.

(* ================================================================== *)
(** * Paths outside the registered directories *)
(* ================================================================== *)

Section Outside.

Lemma truthy_Some (o : option string) (s : string) :
  truthy o = Some s → o = Some s.
Proof. destruct o as [s'|]; simpl; [|done]. by case_decide. Qed.

Lemma registered_dirs_cases (d : string) :
  d ∈ registered_dirs →
  d = "docs/adrs" ∨ d = "docs/business" ∨ d = "docs/features"
  ∨ d = "docs/ts4" ∨ d = "docs/ui-intent".
Proof.
  unfold registered_dirs. simpl. rewrite !elem_of_cons, elem_of_nil. naive_solver.
Qed.

(** Below a registered directory the string test of the classifier holds. *)
Lemma prefix_registered (d c : string) (rest : Path) :
  d ∈ registered_dirs →
  joinpath [] d = parse_parts d ∧
  String.prefix d (path_str (parse_parts d ++ c :: rest)) = true.
Proof.
  intros Hd.
  destruct (registered_dirs_cases d Hd) as [->|[->|[->|[->| ->]]]];
    (split; [reflexivity|]); destruct rest; reflexivity.
Qed.

Lemma joinpath_registered (root : Path) (d : string) :
  d ∈ registered_dirs → joinpath root d = (root ++ parse_parts d)%list.
Proof.
  intros Hd.
  destruct (registered_dirs_cases d Hd) as [->|[->|[->|[->| ->]]]]; reflexivity.
Qed.

Lemma hit_is_classified (file_path project_root rel : Path) (cm : string * Mapping) :
  relative_to file_path project_root = Some rel →
  cm ∈ COLLECTION_MAPPINGS →
  mapping_hits file_path rel cm.2 = true →
  ∃ c, get_collection_for_file file_path project_root = Some (Some c).
Proof.
  intros Hrel Hcm Hhit.
  destruct (classify_cases file_path project_root)
    as [(H & _)|[(rel' & H & Hnone & _)|(rel' & cm' & _ & _ & _ & H & _)]].
  - by rewrite H in Hrel.
  - rewrite Hrel in H. injection H as H. subst rel'.
    unfold classify in Hnone. rewrite first_hit_None in Hnone.
    by rewrite (Hnone cm Hcm) in Hhit.
  - eauto.
Qed.

(** What [rglob] finds under a registered directory with the pattern of
    its mapping is classified. *)
Lemma rglob_is_classified (fs : FS) (project_root p : Path)
    (cm : string * Mapping) (d : string) :
  cm ∈ COLLECTION_MAPPINGS → d ∈ directories cm.2 →
  p ∈ rglob fs (joinpath project_root d) (file_pattern cm.2) →
  ∃ c, get_collection_for_file p project_root = Some (Some c).
Proof.
  intros Hcm Hd Hp.
  assert (Hreg : d ∈ registered_dirs).
  { unfold registered_dirs. apply elem_of_flat_map. eauto. }
  rewrite (joinpath_registered _ _ Hreg) in Hp.
  apply elem_of_rglob in Hp as (_ & Hbelow & Hmatch).
  apply below_spec in Hbelow as (c & rest & ->).
  rewrite <- app_assoc in *.
  apply (hit_is_classified _ _ _ cm (relative_to_app _ _) Hcm).
  unfold mapping_hits. apply existsb_exists. exists d.
  split; [by apply list_elem_of_In|].
  destruct (prefix_registered d c rest Hreg) as [_ ->]. by rewrite Hmatch.
Qed.

Lemma rglob_if_exists_is_classified (fs : FS) (project_root p : Path)
    (cm : string * Mapping) (d : string) :
  cm ∈ COLLECTION_MAPPINGS → d ∈ directories cm.2 →
  p ∈ rglob_if_exists fs project_root d (file_pattern cm.2) →
  ∃ c, get_collection_for_file p project_root = Some (Some c).
Proof.
  intros Hcm Hd. unfold rglob_if_exists.
  destruct (fs_exists _ _); [by apply rglob_is_classified|].
  intros H. by apply elem_of_nil in H.
Qed.

(** In every selection mode, the resolver returns classified paths only:
    a path the classifier rejects is in no result set. *)
Lemma selected_files_are_classified (fs : FS) (project_root : Path)
    (file_path file_type directory : option string) (files : list Path) (p : Path) :
  get_files_to_reindex fs project_root file_path file_type directory = inr files →
  p ∈ files →
  ∃ c, get_collection_for_file p project_root = Some (Some c).
Proof.
  unfold get_files_to_reindex.
  destruct (truthy file_path) as [fp|].
  { destruct (negb _); [done|].
    destruct (get_collection_for_file _ _) as [collection|] eqn:Hc; [|done].
    destruct (truthy collection) as [c|] eqn:Ht; [|done].
    intros [= <-]. rewrite elem_of_sorted_set, list_elem_of_singleton. intros ->.
    apply truthy_Some in Ht as ->. eauto. }
  destruct (truthy file_type) as [ft|].
  { destruct (type_mapping !! ft) as [[d pat]|] eqn:Hft; [|done].
    intros [= <-]. rewrite elem_of_sorted_set.
    apply elem_of_list_to_map_2 in Hft.
    rewrite !elem_of_cons, elem_of_nil in Hft.
    destruct Hft as [Hft|[Hft|[Hft|[Hft|[]]]]]; injection Hft as -> -> ->;
      rewrite ?decide_True by done; rewrite ?decide_False by done; cbn [fst snd].
    - apply (rglob_if_exists_is_classified fs _ _
               ("tech-specs", mkMapping ["docs/ts4"] "*.ts4" "ts4")); set_solver.
    - apply (rglob_if_exists_is_classified fs _ _
               ("features", mkMapping ["docs/features"] "*.feature" "feature"));
        set_solver.
    - rewrite !elem_of_app, elem_of_nil. intros [Hp|[Hp|[]]]; revert Hp;
      apply (rglob_if_exists_is_classified fs _ _
               ("business-and-architecture",
                mkMapping ["docs/adrs"; "docs/business"] "*.md" "adr"));
        set_solver.
    - apply (rglob_if_exists_is_classified fs _ _
               ("uisi", mkMapping ["docs/ui-intent"] "*.yaml" "ui-intent"));
        set_solver. }
  destruct (truthy directory) as [d|].
  { destruct (negb _); [done|].
    destruct (List.find _ _) as [[n mapping]|] eqn:Hfind; [|done].
    apply find_some in Hfind as [Hin Hd]. apply list_elem_of_In in Hin.
    apply bool_decide_eq_true in Hd. cbn [snd] in Hd.
    intros [= <-]. rewrite elem_of_sorted_set.
    by apply (rglob_is_classified fs _ _ (n, mapping)). }
  match goal with |- inr (sorted_set ?raw) = _ → _ =>
    remember raw as collected eqn:Hraw end.
  intros [= <-]. rewrite elem_of_sorted_set. subst collected.
  rewrite elem_of_flat_map. intros (cm & Hcm & Hp). apply elem_of_flat_map in Hp as (d & Hd & Hp).
  by apply (rglob_if_exists_is_classified fs _ _ cm d).
Qed.

(** A path below a registered directory whose name does not match the
    pattern of that directory's mapping is not classified. *)
Lemma wrong_pattern_is_not_classified (project_root : Path)
    (cm : string * Mapping) (d c : string) (rest : Path) :
  cm ∈ COLLECTION_MAPPINGS → d ∈ directories cm.2 →
  let p := (project_root ++ parse_parts d ++ c :: rest)%list in
  path_match p (file_pattern cm.2) = false →
  get_collection_for_file p project_root = Some None.
Proof.
  intros Hcm Hd p Hmatch. unfold get_collection_for_file. subst p.
  rewrite relative_to_app. f_equal.
  revert Hmatch. unfold COLLECTION_MAPPINGS in *.
  rewrite !elem_of_cons, elem_of_nil in Hcm.
  destruct Hcm as [->|[->|[->|[->|[]]]]]; cbn [snd directories file_pattern] in *;
    rewrite !elem_of_cons, elem_of_nil in Hd;
    destruct Hd as [->|Hd]; try destruct Hd as [->|Hd]; try done;
    intros Hmatch; unfold first_hit, mapping_hits;
    cbn [existsb directories file_pattern]; rewrite ?Hmatch, ?andb_false_r;
    destruct rest; reflexivity.
Qed.

(** C3 fails on a sibling directory whose name a registered directory
    starts: [docs/featuresExtra/x.feature] lies in no registered directory,
    yet it is classified into [features], the single-file mode selects it
    and the command stores it, while the mode that walks the registered
    directories finds nothing. *)
Theorem sibling_directory_is_classified :
  let project_root := ["proj"] in
  let p := ["proj"; "docs"; "featuresExtra"; "x.feature"] in
  let single := Some "docs/featuresExtra/x.feature" in
  Forall (fun d => below (joinpath project_root d) p = false) registered_dirs
  ∧ get_collection_for_file p project_root = Some (Some "features")
  ∧ get_files_to_reindex fs_sibling project_root single None None = inr [p]
  ∧ get_files_to_reindex fs_sibling project_root None None None = inr []
  ∧ (reindex_command no_faults fs_sibling project_root single None None
       false false false empty_world).2 = Summary (mkStats 1 0 0 0).
Proof.
  cbv zeta. split; [|split; [|split; [|split]]].
  - repeat constructor.
  - reflexivity.
  - vm_compute. reflexivity.
  - vm_compute. reflexivity.
  - vm_compute. reflexivity.
Qed.

End Outside.

(* ================================================================== *)
(** * The properties on a concrete project *)
(* ================================================================== *)

(** Classification looks at the directory and at the extension. *)
Example classify_adr :
  get_collection_for_file demo_adr_b demo_root
  = Some (Some "business-and-architecture")
  ∧ get_file_type demo_adr_b demo_root = Some (Some "adr").
Proof. split; reflexivity. Qed.

Example classify_wrong_extension :
  get_collection_for_file ["proj"; "docs"; "adrs"; "notes.txt"] demo_root
  = Some None.
Proof. reflexivity. Qed.

Example classify_outside_project :
  get_collection_for_file ["elsewhere"; "docs"; "adrs"; "a.md"] demo_root = None.
Proof. reflexivity. Qed.

(** The order is the one of [pathlib], by components; the strings of the
    same two paths compare the other way round. *)
Example paths_are_ordered_by_component :
  sorted_set [["p"; "a-b"]; ["p"; "a"; "b"]; ["p"; "a-b"]]
  = [["p"; "a"; "b"]; ["p"; "a-b"]]
  ∧ ("p/a-b" <? "p/a/b")%string = true.
Proof. vm_compute. split; reflexivity. Qed.

(** Selecting the feature files of a project that was never indexed adds
    the one file; running again at once updates it. *)
Example first_run_adds_then_second_updates :
  let run w := reindex_command no_faults demo_fs demo_root
                 None (Some "feature") None false false false w in
  (run empty_world).2 = Summary (mkStats 1 0 0 0)
  ∧ (run (run empty_world).1).2 = Summary (mkStats 0 1 0 0).
Proof. vm_compute. split; reflexivity. Qed.

(** A dry run over the whole project after one full run: what is stored
    is reported as to update, the unreadable file as to add. *)
Example dry_run_report :
  let indexed := (reindex_command no_faults demo_fs demo_root
                    None None None false false false empty_world).1 in
  (reindex_command no_faults demo_fs demo_root
     None None None true false false indexed).2
  = DryRun [ ("docs/adrs/a.md", "New", "Add");
             ("docs/adrs/sub/b.md", "Exists", "Update");
             ("docs/features/login.feature", "Exists", "Update") ].
Proof. vm_compute. reflexivity. Qed.

Lemma resolver_sorted_without_duplicates_witness :
  NoDup demo_files ∧ StronglySorted path_le demo_files
  ∧ StronglySorted path_lt demo_files
  ∧ ∀ fs', (∀ q, q ∈ fs_entries fs' ↔ q ∈ fs_entries demo_fs) →
           get_files_to_reindex fs' demo_root None None None = inr demo_files.
Proof.
  apply (resolver_sorted_without_duplicates demo_fs demo_root None None None).
  vm_compute. reflexivity.
Defined.

Lemma collection_and_type_agree_witness :
  ∃ m, ("features", m) ∈ COLLECTION_MAPPINGS ∧ "feature" = type_tag m.
Proof.
  destruct (collection_and_type_agree demo_feature demo_root) as (_ & _ & H & _).
  apply (H "features" "feature"); reflexivity.
Defined.

Lemma failure_is_isolated_per_file_witness :
  let rs := file_results no_faults demo_fs demo_root demo_files bootstrapped in
  let st := (reindex_loop no_faults demo_fs demo_root demo_files
                          (mkStats 0 0 0 0) bootstrapped).2 in
  errors st = 1
  ∧ added st + updated st = length demo_files - 1
  ∧ ∀ j, j < length demo_files → j ≠ 0 → ∃ r, rs !! j = Some r ∧ reconciled r.
Proof.
  destruct (failure_is_isolated_per_file no_faults demo_fs demo_root
              demo_files bootstrapped) as (_ & _ & _ & _ & H).
  apply (H 0 (ReadError demo_adr_a)).
  - vm_compute. reflexivity.
  - intros [|[|[|j]]] e'; vm_compute; [reflexivity|discriminate..].
Defined.

Lemma skipped_is_never_reported_witness :
  skipped (mkStats 2 0 0 1) = 0.
Proof.
  destruct (skipped_is_never_reported no_faults demo_fs demo_root) as (_ & _ & H).
  apply (H None None None false false false empty_world).
  vm_compute. reflexivity.
Defined.

Lemma lookup_failure_is_treated_as_absent_witness :
  ∃ t, get_file_type demo_feature demo_root = Some (Some t) ∧
    let id := "docs/features/login.feature" in
    let add := CollAdd "features" id "text" (mkMetadata id t "features") in
    let res := reindex_file lookup_fails demo_fs demo_feature demo_root bootstrapped in
    calls res.1 = (calls bootstrapped
                   ++ [GetCollection "features"; CollGet "features" id; add])%list
    ∧ res.2 = (if lookup_fails (calls bootstrapped
                                ++ [GetCollection "features"; CollGet "features" id]) add
               then inl (StoreError add) else inr "added")
    ∧ res.2 ≠ inl (StoreError (CollGet "features" id)).
Proof.
  apply (lookup_failure_is_treated_as_absent lookup_fails demo_fs demo_feature
           demo_root ["docs"; "features"; "login.feature"] "features" "text"
           bootstrapped (StoreError (CollGet "features" "docs/features/login.feature")));
    vm_compute; reflexivity.
Defined.

Lemma reconciling_twice_adds_then_updates_witness :
  let run1 := reindex_file no_faults demo_fs demo_feature demo_root bootstrapped in
  let run2 := reindex_file no_faults demo_fs demo_feature demo_root run1.1 in
  run1.2 = inr "added"
  ∧ run2.2 = inr "updated"
  ∧ ∃ t, get_file_type demo_feature demo_root = Some (Some t)
         ∧ doc_at (store run2.1) "features" "docs/features/login.feature"
           = Some (mkDocument "text"
                     (mkMetadata "docs/features/login.feature" t "features")).
Proof.
  destruct (reconciling_twice_adds_then_updates no_faults demo_fs demo_fs
              demo_feature demo_root ["docs"; "features"; "login.feature"]
              "features" "text" "text" bootstrapped ∅)
    as (Hfirst & _ & Hsecond & Hstored); try (vm_compute; reflexivity).
  split; [|split]; [|exact Hsecond|exact Hstored].
  apply Hfirst. vm_compute. reflexivity.
Defined.

Lemma bootstrap_is_idempotent_witness :
  let second := ensure_collections no_faults bootstrapped in
  store second.1 = store bootstrapped
  ∧ calls second.1 = (calls bootstrapped ++ [ListCollections])%list
  ∧ (second.2 = inr [] ∨ second.2 = inl (StoreError ListCollections))
  ∧ (no_faults (calls bootstrapped) ListCollections = false → second.2 = inr []).
Proof.
  apply (bootstrap_is_idempotent no_faults empty_world bootstrapped
           REQUIRED_COLLECTIONS).
  vm_compute. reflexivity.
Defined.

(* ================================================================== *)
(** * More on the classifier *)
(* ================================================================== *)

Section ClassifierMore.

Lemma table_cases (cm : string * Mapping) (d : string) :
  cm ∈ COLLECTION_MAPPINGS → d ∈ directories cm.2 →
  (cm = ("business-and-architecture",
         mkMapping ["docs/adrs"; "docs/business"] "*.md" "adr")
   ∧ (d = "docs/adrs" ∨ d = "docs/business"))
  ∨ (cm = ("features", mkMapping ["docs/features"] "*.feature" "feature")
     ∧ d = "docs/features")
  ∨ (cm = ("tech-specs", mkMapping ["docs/ts4"] "*.ts4" "ts4") ∧ d = "docs/ts4")
  ∨ (cm = ("uisi", mkMapping ["docs/ui-intent"] "*.yaml" "ui-intent")
     ∧ d = "docs/ui-intent").
Proof.
  unfold COLLECTION_MAPPINGS. rewrite !elem_of_cons, elem_of_nil.
  intros [->|[->|[->|[->|[]]]]]; cbn [snd directories];
    rewrite !elem_of_cons, elem_of_nil; naive_solver.
Qed.

(** A path below a registered directory goes to the collection of that
    directory, with the type of its mapping, exactly when its name matches
    the mapping's pattern; otherwise both lookups return [None]. *)
Theorem classification_below_registered_directory (project_root : Path)
    (cm : string * Mapping) (d c : string) (rest : Path) :
  cm ∈ COLLECTION_MAPPINGS → d ∈ directories cm.2 →
  let p := (project_root ++ parse_parts d ++ c :: rest)%list in
  get_collection_for_file p project_root
  = Some (if path_match p (file_pattern cm.2) then Some cm.1 else None)
  ∧ get_file_type p project_root
    = Some (if path_match p (file_pattern cm.2) then Some (type_tag cm.2) else None).
Proof.
  intros Hcm Hd p. unfold get_collection_for_file, get_file_type. subst p.
  rewrite relative_to_app.
  destruct (table_cases cm d Hcm Hd)
    as [[-> [-> | ->]]|[[-> ->]|[[-> ->]|[-> ->]]]];
    cbn [fst snd file_pattern type_tag];
    unfold COLLECTION_MAPPINGS, first_hit, mapping_hits;
    cbn [existsb directories file_pattern fst snd];
    match goal with |- _ = Some (if path_match ?q ?pat then _ else _) ∧ _ =>
      destruct (path_match q pat) eqn:Hmatch end;
    rewrite ?Hmatch, ?andb_false_r; destruct rest; split; reflexivity.
Qed.

Lemma path_match_app (root rel : Path) (pattern : string) :
  rel ≠ [] → path_match (root ++ rel) pattern = path_match rel pattern.
Proof.
  intros Hrel. unfold path_match.
  destruct rel as [|c rel] using rev_ind; [done|].
  by rewrite app_assoc, !last_snoc.
Qed.

(** Classification looks at the path relative to the project root only:
    the same relative path is classified alike under any root. *)
Theorem classification_ignores_project_root (root root' rel : Path) :
  get_collection_for_file (root ++ rel) root
  = get_collection_for_file (root' ++ rel) root'
  ∧ get_file_type (root ++ rel) root = get_file_type (root' ++ rel) root'.
Proof.
  unfold get_collection_for_file, get_file_type. rewrite !relative_to_app.
  destruct rel as [|c rel].
  - split; reflexivity.
  - unfold COLLECTION_MAPPINGS, first_hit, mapping_hits.
    cbn [existsb directories file_pattern].
    rewrite !(path_match_app root (c :: rel)), !(path_match_app root' (c :: rel)) by done.
    done.
Qed.

End ClassifierMore.

(* ================================================================== *)
(** * Listing and initializing the collections *)
(* ================================================================== *)

Section Collections.
Variable faults : Faults.

Lemma verify_collections_spec (w : World) :
  let res := verify_collections faults w in
  res.1 = mkWorld (store w) (calls w ++ [ListCollections])
  ∧ (faults (calls w) ListCollections = true →
     res.2 = inl (StoreError ListCollections))
  ∧ (faults (calls w) ListCollections = false →
     ∃ missing,
       res.2 = inr missing
       ∧ missing = filter (fun col => col ∉ elements (dom (store w)))
                          REQUIRED_COLLECTIONS
       ∧ (∀ n, n ∈ missing ↔ n ∈ REQUIRED_COLLECTIONS ∧ store w !! n = None)
       ∧ (missing = [] ↔ ∀ n, n ∈ REQUIRED_COLLECTIONS → is_Some (store w !! n))).
Proof.
  cbv zeta. unfold verify_collections, list_collections, bind, ret, store_call.
  destruct (faults (calls w) ListCollections); cbn [fst snd store calls].
  { split; [done|]. split; [done|]. done. }
  split; [done|]. split; [done|]. intros _.
  set (missing := filter (fun col => col ∉ elements (dom (store w))) REQUIRED_COLLECTIONS).
  assert (Hin : ∀ n, n ∈ missing ↔ n ∈ REQUIRED_COLLECTIONS ∧ store w !! n = None).
  { intros n. unfold missing.
    rewrite list_elem_of_filter, elem_of_elements, not_elem_of_dom. naive_solver. }
  exists missing. split; [done|]. split; [done|]. split; [done|].
  split.
  - intros Hnil n Hn. destruct (store w !! n) eqn:Hs; [eauto|].
    assert (n ∈ missing) as Hm by (by apply Hin). rewrite Hnil in Hm.
    by apply elem_of_nil in Hm.
  - intros Hall. destruct missing as [|n l] eqn:Hm; [done|].
    assert (n ∈ n :: l) as Hn by left. apply Hin in Hn as [Hreq Hnone].
    destruct (Hall n Hreq) as [? ?]. congruence.
Qed.

(** [verify_collections] answers from the store without changing it: the
    list holds the required names that have no collection, each once and in
    the order of the table, and it is empty exactly when all four
    collections exist.  When the listing raises, so does it. *)
Theorem verify_collections_reports_absent (w : World) :
  let res := verify_collections faults w in
  res.1 = mkWorld (store w) (calls w ++ [ListCollections])
  ∧ (faults (calls w) ListCollections = true →
     res.2 = inl (StoreError ListCollections))
  ∧ (faults (calls w) ListCollections = false →
     ∃ missing,
       res.2 = inr missing
       ∧ (∀ n, n ∈ missing ↔ n ∈ REQUIRED_COLLECTIONS ∧ store w !! n = None)
       ∧ NoDup missing
       ∧ missing `sublist_of` REQUIRED_COLLECTIONS
       ∧ (missing = [] ↔ ∀ n, n ∈ REQUIRED_COLLECTIONS → is_Some (store w !! n))).
Proof.
  cbv zeta. destruct (verify_collections_spec w) as (Hw & Hfail & Hok).
  split; [done|]. split; [done|]. intros Hf.
  destruct (Hok Hf) as (missing & Hres & -> & Hin & Hnil).
  eexists. split; [exact Hres|]. split; [done|]. split; [|split; [|done]].
  - apply NoDup_filter. unfold REQUIRED_COLLECTIONS, COLLECTION_MAPPINGS. simpl.
    repeat (apply NoDup_cons; split; [set_solver|]). apply NoDup_nil_2.
  - apply sublist_filter.
Qed.

Lemma get_or_create_collection_store (name : string) (w : World) :
  let res := get_or_create_collection faults name w in
  calls res.1 = (calls w ++ [GetOrCreateCollection name])%list
  ∧ same_docs (store w) (store res.1)
  ∧ (∀ n, is_Some (store w !! n) → is_Some (store res.1 !! n))
  ∧ (is_Some (store w !! name) → store res.1 = store w)
  ∧ match res.2 with
    | inr _ => is_Some (store res.1 !! name)
    | inl e => e = StoreError (GetOrCreateCollection name) ∧ store res.1 = store w
    end.
Proof.
  cbv zeta. unfold get_or_create_collection, store_call.
  destruct (faults (calls w) _); cbn [fst snd store calls].
  { split_and!; done. }
  destruct (store w !! name) as [docs|] eqn:Hs; cbn [fst snd store calls].
  { split_and!; try done; by rewrite Hs. }
  split_and!; try done.
  - intros c i. unfold doc_at. destruct (decide (c = name)) as [->|Hne].
    + by rewrite lookup_insert_eq, Hs, lookup_empty.
    + by rewrite lookup_insert_ne.
  - intros n Hn. destruct (decide (n = name)) as [->|Hne].
    + by rewrite lookup_insert_eq.
    + by rewrite lookup_insert_ne.
  - by rewrite lookup_insert_eq.
Qed.

Lemma initialize_each_spec (names : list string) (w : World) :
  let res := initialize_each faults names w in
  same_docs (store w) (store res.1)
  ∧ (∀ n, is_Some (store w !! n) → is_Some (store res.1 !! n))
  ∧ ((∀ n, n ∈ names → is_Some (store w !! n)) → store res.1 = store w)
  ∧ match res.2 with
    | inr _ =>
        calls res.1 = (calls w ++ (GetOrCreateCollection <$> names))%list
        ∧ ∀ n, n ∈ names → is_Some (store res.1 !! n)
    | inl (RuntimeError n e) =>
        ∃ before after,
          names = (before ++ n :: after)%list
          ∧ calls res.1
            = (calls w ++ (GetOrCreateCollection <$> (before ++ [n])))%list
          ∧ (∀ m, m ∈ before → is_Some (store res.1 !! m))
          ∧ e = StoreError (GetOrCreateCollection n)
    end.
Proof.
  revert w. induction names as [|name names IH]; intros w; cbn [initialize_each].
  { cbn [fst snd fmap list_fmap]. rewrite app_nil_r. split_and!; try done.
    intros n Hn. by apply elem_of_nil in Hn. }
  destruct (get_or_create_collection_store name w) as (Hc & Hd & Hm & Hsame & Hr).
  destruct (get_or_create_collection faults name w) as [w1 [e|[]]];
    cbn [fst snd] in *.
  - destruct Hr as [-> Hs]. split_and!; try done.
    exists [], names. cbn [app fmap list_fmap]. split_and!; try done.
    intros m Hm'. by apply elem_of_nil in Hm'.
  - specialize (IH w1). cbv zeta in IH. destruct IH as (Hd' & Hm' & Hsame' & Hr').
    split_and!.
    + by trans (store w1).
    + auto.
    + intros Hall. rewrite Hsame'.
      * apply Hsame, Hall. left.
      * intros n Hn. apply Hm, Hall. by right.
    + destruct (initialize_each faults names w1) as [w2 [[n e]|[]]];
        cbn [fst snd] in *.
      * destruct Hr' as (before & after & -> & Hcalls & Hbefore & ->).
        exists (name :: before), after. split_and!; try done.
        -- rewrite Hcalls, Hc, <- app_assoc. done.
        -- intros m [->|?]%elem_of_cons; auto.
      * destruct Hr' as [Hcalls Hall]. split.
        -- rewrite Hcalls, Hc, <- app_assoc. done.
        -- intros n [->|?]%elem_of_cons; auto.
Qed.

(** When [initialize_collections] returns, the four collections exist,
    no document was touched, and [verify_collections] then finds nothing
    missing. *)
Theorem initialize_collections_creates_all (w w' : World) :
  initialize_collections faults w = (w', inr tt) →
  (∀ n, n ∈ REQUIRED_COLLECTIONS → is_Some (store w' !! n))
  ∧ same_docs (store w) (store w')
  ∧ calls w' = (calls w ++ (GetOrCreateCollection <$> REQUIRED_COLLECTIONS))%list
  ∧ (faults (calls w') ListCollections = false →
     (verify_collections faults w').2 = inr []).
Proof.
  intros H. unfold initialize_collections in H.
  destruct (initialize_each_spec REQUIRED_COLLECTIONS w) as (Hd & _ & _ & Hr).
  rewrite H in Hd, Hr. cbn [fst snd] in Hd, Hr. destruct Hr as [Hcalls Hall].
  split_and!; try done.
  intros Hf.
  destruct (verify_collections_spec w') as (_ & _ & Hv).
  destruct (Hv Hf) as (missing & -> & _ & _ & Hnil). f_equal. by apply Hnil.
Qed.


(** Initializing is idempotent on the store: once the four collections
    exist, initializing again, or bootstrapping a reindex run, leaves the
    store exactly as it is, whatever fails. *)
Theorem initialize_collections_idempotent (w w1 : World) :
  initialize_collections faults w = (w1, inr tt) →
  store (initialize_collections faults w1).1 = store w1
  ∧ store (ensure_collections faults w1).1 = store w1.
Proof.
  intros H.
  assert (Hall : ∀ n, n ∈ REQUIRED_COLLECTIONS → is_Some (store w1 !! n)).
  { unfold initialize_collections in H.
    destruct (initialize_each_spec REQUIRED_COLLECTIONS w) as (_ & _ & _ & Hr).
    rewrite H in Hr. by destruct Hr. }
  split.
  - unfold initialize_collections.
    destruct (initialize_each_spec REQUIRED_COLLECTIONS w1) as (_ & _ & Hsame & _).
    by apply Hsame.
  - unfold ensure_collections, bind, ret.
    destruct (verify_collections_spec w1) as (Hw & Hfail & Hok).
    destruct (verify_collections faults w1) as [w2 [e|missing]] eqn:Hv;
      cbn [fst snd] in *; [by subst|].
    destruct (faults (calls w1) ListCollections) eqn:Hf; [by specialize (Hfail eq_refl)|].
    destruct (Hok eq_refl) as (missing' & [= <-] & _ & _ & Hnil).
    rewrite (proj2 Hnil Hall). cbn [create_collections]. unfold ret. cbn [fst].
    by subst.
Qed.

End Collections.

(* ================================================================== *)
(** * More on the file set resolver *)
(* ================================================================== *)

Section ResolverMore.
Variable fs : FS.
Variable project_root : Path.

Lemma truthy_nonempty (s : string) : s ≠ "" → truthy (Some s) = Some s.
Proof. intros H. simpl. by rewrite decide_False. Qed.

(** The selection arguments are tried in a fixed order: with a file path
    the type and the directory are not looked at, and with a type (and no
    file path) the directory is not looked at. *)
Theorem selection_arguments_take_precedence (file_path file_type : string)
    (t t' d d' : option string) :
  (file_path ≠ "" →
   get_files_to_reindex fs project_root (Some file_path) t d
   = get_files_to_reindex fs project_root (Some file_path) t' d')
  ∧ (file_type ≠ "" →
     get_files_to_reindex fs project_root None (Some file_type) d
     = get_files_to_reindex fs project_root None (Some file_type) d'
     ∧ get_files_to_reindex fs project_root (Some "") (Some file_type) d
       = get_files_to_reindex fs project_root None (Some file_type) d').
Proof.
  split.
  - intros H. unfold get_files_to_reindex. by rewrite (truthy_nonempty _ H).
  - intros H. unfold get_files_to_reindex. rewrite (truthy_nonempty _ H).
    change (truthy (Some "")) with (@None string). done.
Qed.


Lemma classified_truthy (p : Path) (c : string) :
  get_collection_for_file p project_root = Some (Some c) →
  truthy (Some c) = Some c.
Proof.
  intros H.
  destruct (classify_cases p project_root)
    as [(_ & H' & _)|[(? & _ & _ & H' & _)|(? & cm & _ & _ & Hcm & H' & _)]];
    rewrite H' in H; try done.
  injection H as H. subst c. by destruct (table_names_types cm Hcm).
Qed.


Lemma type_mapping_cases (file_type : string) :
  (file_type ∈ ["ts4"; "feature"; "md"; "yaml"] ∧
   ∃ dir_pattern, type_mapping !! file_type = Some dir_pattern
     ∧ (file_type, dir_pattern)
       ∈ [ ("ts4", ("docs/ts4", "*.ts4"));
           ("feature", ("docs/features", "*.feature"));
           ("md", ("docs/adrs", "*.md"));
           ("yaml", ("docs/ui-intent", "*.yaml")) ])
  ∨ ((file_type ∉ ["ts4"; "feature"; "md"; "yaml"])
     ∧ (type_mapping !! file_type) = None).
Proof.
  destruct (type_mapping !! file_type) as [dp|] eqn:H.
  - left. apply elem_of_list_to_map_2 in H. split; [|eauto].
    rewrite !elem_of_cons, elem_of_nil in H. set_solver.
  - right. split; [|done]. unfold type_mapping in H.
    apply not_elem_of_list_to_map_2 in H. set_solver.
Qed.

(** Selecting by type: the four types of the table never raise, whatever
    the filesystem holds, and any other type is a [ValueError]. *)
Theorem type_selection_knows_four_types (file_type : string) (d : option string) :
  file_type ≠ "" →
  let res := get_files_to_reindex fs project_root None (Some file_type) d in
  (file_type ∈ ["ts4"; "feature"; "md"; "yaml"] → ∃ files, res = inr files)
  ∧ (file_type ∉ ["ts4"; "feature"; "md"; "yaml"] →
     res = inl (ValueError "Unknown file type")).
Proof.
  intros Hne. cbv zeta. unfold get_files_to_reindex.
  change (truthy None) with (@None string). rewrite (truthy_nonempty _ Hne).
  destruct (type_mapping_cases file_type) as [(Hin & dp & -> & _)|[Hnin ->]].
  - split; [eauto|done].
  - split; [done|done].
Qed.

Lemma find_registered (cm : string * Mapping) (directory : string) :
  cm ∈ COLLECTION_MAPPINGS → directory ∈ directories cm.2 →
  List.find (fun cm' => bool_decide (directory ∈ directories cm'.2))
            COLLECTION_MAPPINGS = Some cm.
Proof.
  intros Hcm Hd.
  destruct (table_cases cm directory Hcm Hd)
    as [[-> [-> | ->]]|[[-> ->]|[[-> ->]|[-> ->]]]]; reflexivity.
Qed.

Lemma find_unregistered (directory : string) :
  directory ∉ registered_dirs →
  List.find (fun cm' => bool_decide (directory ∈ directories cm'.2))
            COLLECTION_MAPPINGS = None.
Proof.
  intros Hd. destruct (List.find _ _) as [cm|] eqn:Hfind; [|done].
  apply find_some in Hfind as [Hin Hb]. destruct Hd.
  unfold registered_dirs. apply elem_of_flat_map. exists cm.
  split; [by apply list_elem_of_In|]. by apply bool_decide_eq_true in Hb.
Qed.

Lemma directory_selection_registered (directory : string) :
  directory ≠ "" →
  let dir_path := joinpath project_root directory in
  let res := get_files_to_reindex fs project_root None None (Some directory) in
  (fs_exists fs dir_path = false → res = inl (FileNotFoundError directory))
  ∧ (fs_exists fs dir_path = true →
     ∀ cm, cm ∈ COLLECTION_MAPPINGS → directory ∈ directories cm.2 →
     ∃ files, res = inr files ∧ NoDup files
       ∧ ∀ p, p ∈ files ↔
              p ∈ fs_entries fs ∧ below dir_path p = true
              ∧ path_match p (file_pattern cm.2) = true).
Proof.
  intros Hne. cbv zeta. unfold get_files_to_reindex.
  change (truthy None) with (@None string). rewrite (truthy_nonempty _ Hne).
  split.
  - by intros ->.
  - intros -> cm Hcm Hd. cbn [negb]. rewrite (find_registered cm _ Hcm Hd).
    destruct cm as [n mapping]. eexists. split; [done|].
    split; [apply NoDup_sorted_set|]. intros p.
    by rewrite elem_of_sorted_set, elem_of_rglob.
Qed.

(** Selecting by directory: the directory has to exist
    ([FileNotFoundError] otherwise) and to be, letter for letter, one of
    the registered names ([ValueError] otherwise); the result then holds,
    each once, the entries below it whose name matches the pattern of its
    mapping. *)
Theorem directory_selection (directory : string) :
  directory ≠ "" →
  let dir_path := joinpath project_root directory in
  let res := get_files_to_reindex fs project_root None None (Some directory) in
  (fs_exists fs dir_path = false → res = inl (FileNotFoundError directory))
  ∧ (fs_exists fs dir_path = true → directory ∉ registered_dirs →
     res = inl (ValueError "Directory is not a valid context directory"))
  ∧ (fs_exists fs dir_path = true →
     ∀ cm, cm ∈ COLLECTION_MAPPINGS → directory ∈ directories cm.2 →
     ∃ files, res = inr files ∧ NoDup files
       ∧ ∀ p, p ∈ files ↔
              p ∈ fs_entries fs ∧ below dir_path p = true
              ∧ path_match p (file_pattern cm.2) = true).
Proof.
  intros Hne. cbv zeta.
  destruct (directory_selection_registered directory Hne) as [Hmissing Hreg].
  split; [done|]. split; [|done].
  intros Hex Hd. unfold get_files_to_reindex.
  change (truthy None) with (@None string). rewrite (truthy_nonempty _ Hne).
  rewrite Hex. cbn [negb]. by rewrite (find_unregistered _ Hd).
Qed.

(** Selecting everything never raises, and what it returns is what the
    selections by directory return for the registered directories that
    exist, taken together.  Every selection by type returns a part of it. *)
Theorem all_selection_is_union_of_directories :
  ∃ all,
    get_files_to_reindex fs project_root None None None = inr all
    ∧ NoDup all
    ∧ (∀ p, p ∈ all ↔
         ∃ directory files,
           directory ∈ registered_dirs
           ∧ get_files_to_reindex fs project_root None None (Some directory)
             = inr files
           ∧ p ∈ files)
    ∧ (∀ file_type d files p,
         file_type ≠ "" →
         get_files_to_reindex fs project_root None (Some file_type) d = inr files →
         p ∈ files → p ∈ all).
Proof.
  eexists. split; [reflexivity|]. split; [apply NoDup_sorted_set|].
  assert (Hall : ∀ p,
    p ∈ sorted_set
          (flat_map (fun cm =>
             flat_map (fun dir_name =>
                         rglob_if_exists fs project_root dir_name (file_pattern cm.2))
                      (directories cm.2))
             COLLECTION_MAPPINGS)
    ↔ ∃ cm directory, cm ∈ COLLECTION_MAPPINGS ∧ directory ∈ directories cm.2
        ∧ p ∈ rglob_if_exists fs project_root directory (file_pattern cm.2)).
  { intros p. rewrite elem_of_sorted_set, elem_of_flat_map.
    split.
    - intros (cm & Hcm & Hp). apply elem_of_flat_map in Hp as (d & Hd & Hp). eauto.
    - intros (cm & d & Hcm & Hd & Hp). exists cm. split; [done|].
      apply elem_of_flat_map. eauto. }
  split.
  - intros p. rewrite Hall. split.
    + intros (cm & directory & Hcm & Hd & Hp).
      assert (Hreg : directory ∈ registered_dirs).
      { unfold registered_dirs. apply elem_of_flat_map. eauto. }
      assert (Hne : directory ≠ "").
      { intros ->. by destruct (registered_dirs_cases _ Hreg) as [?|[?|[?|[?|?]]]]. }
      unfold rglob_if_exists in Hp.
      destruct (fs_exists fs (joinpath project_root directory)) eqn:He;
        [|by apply elem_of_nil in Hp].
      destruct (directory_selection_registered directory Hne) as (_ & H).
      destruct (H He cm Hcm Hd) as (files & Hfiles & _ & Hmem).
      exists directory, files. split; [done|]. split; [done|].
      apply Hmem. by apply elem_of_rglob.
    + intros (directory & files & Hreg & Hfiles & Hp).
      assert (Hne : directory ≠ "").
      { intros ->. by destruct (registered_dirs_cases _ Hreg) as [?|[?|[?|[?|?]]]]. }
      unfold registered_dirs in Hreg. apply elem_of_flat_map in Hreg as (cm & Hcm & Hd).
      destruct (directory_selection_registered directory Hne) as (Hmissing & H).
      destruct (fs_exists fs (joinpath project_root directory)) eqn:He;
        [|by rewrite Hmissing in Hfiles].
      destruct (H eq_refl cm Hcm Hd) as (files' & Hfiles' & _ & Hmem).
      rewrite Hfiles' in Hfiles. injection Hfiles as <-.
      exists cm, directory. split; [done|]. split; [done|].
      unfold rglob_if_exists. rewrite He. apply elem_of_rglob. by apply Hmem.
  - intros file_type d files p Hne. unfold get_files_to_reindex at 1.
    change (truthy None) with (@None string). rewrite (truthy_nonempty _ Hne).
    destruct (type_mapping_cases file_type) as [(_ & dp & -> & Hdp)|[_ ->]]; [|done].
    match goal with |- inr (sorted_set ?raw) = _ → _ =>
      remember raw as collected eqn:Hraw end.
    intros [= <-]. rewrite elem_of_sorted_set, Hall. subst collected.
    rewrite !elem_of_cons, elem_of_nil in Hdp.
    destruct Hdp as [Hdp|[Hdp|[Hdp|[Hdp|[]]]]]; injection Hdp as -> ->;
      rewrite ?decide_True by done; rewrite ?decide_False by done; cbn [fst snd].
    + intros Hp. exists ("tech-specs", mkMapping ["docs/ts4"] "*.ts4" "ts4"), "docs/ts4".
      split_and!; [set_solver|set_solver|done].
    + intros Hp.
      exists ("features", mkMapping ["docs/features"] "*.feature" "feature"),
             "docs/features".
      split_and!; [set_solver|set_solver|done].
    + rewrite elem_of_flat_map. intros (dn & Hdn & Hp).
      exists ("business-and-architecture",
              mkMapping ["docs/adrs"; "docs/business"] "*.md" "adr"), dn.
      split_and!; [set_solver|set_solver|done].
    + intros Hp.
      exists ("uisi", mkMapping ["docs/ui-intent"] "*.yaml" "ui-intent"),
             "docs/ui-intent".
      split_and!; [set_solver|set_solver|done].
Qed.

End ResolverMore.

(* ================================================================== *)
(** * What reconciling a file does to the store *)
(* ================================================================== *)

Lemma collection_and_type_agree_cases (file_path project_root : Path) (c t : string) :
  get_collection_for_file file_path project_root = Some (Some c) →
  get_file_type file_path project_root = Some (Some t) →
  ∃ m, (c, m) ∈ COLLECTION_MAPPINGS ∧ t = type_tag m.
Proof.
  destruct (classify_cases file_path project_root)
    as [(_ & -> & ->)|[(rel & _ & _ & -> & ->)|(rel & [n m] & _ & _ & Hin & -> & ->)]];
    try done.
  simpl. intros [= <-] [= <-]. eauto.
Qed.

Section ReindexFileMore.
Variable faults : Faults.
Variable fs : FS.
Variable project_root : Path.

(** [reindex_file] is [plan] followed by [reconcile]. *)
Lemma reindex_file_plan (file_path : Path) :
  reindex_file faults fs file_path project_root
  = match plan fs file_path project_root with
    | inl e => raise e
    | inr (c, id, d) =>
        reconcile faults c id (md_type (doc_metadata d)) (doc_content d)
    end.
Proof.
  unfold plan, reindex_file, reconcile, bind at 1 2 3 4 5 6, of_option, ret, raise.
  destruct (classify_cases file_path project_root)
    as [(H1 & H2 & _)|[(rel & H1 & H2 & H3 & _)|(rel & cm & H1 & H2 & Hcm & H3 & H4)]].
  - rewrite H1. reflexivity.
  - rewrite H1, H2, ?H3. reflexivity.
  - destruct (table_names_types cm Hcm) as [Ha Hb].
    rewrite H1, H2, H3, Ha, H4, Hb.
    destruct (fs_text fs file_path); reflexivity.
Qed.

(** Every way [reconcile] can leave the world. *)
Lemma reconcile_cases (c id t content : string) (w : World) :
  let res := reconcile faults c id t content w in
  let d := mkDocument content (mkMetadata id t c) in
  (∃ issued, calls res.1 = (calls w ++ issued)%list ∧ (1 ≤ length issued ≤ 3)%nat
             ∧ Forall (fun k => is_bootstrap k = false) issued)
  ∧ (store res.1 = store w
     ∨ ∃ docs, store w !! c = Some docs
               ∧ store res.1 = <[c := <[id := d]> docs]> (store w)
               ∧ ∃ r, res.2 = inr r).
Proof.
  cbv zeta. unfold reconcile, bind, try_except, ret.
  unfold get_collection, coll_get, coll_add, coll_update.
  repeat match goal with |- context [store_call faults ?k ?run ?w0] =>
    let Hrun := fresh "Hrun" in
    destruct (store_call_cases faults k run w0) as [[-> _]|(? & ? & _ & Hrun & ->)];
    cbv beta iota
  end;
  repeat match goal with |- context [bool_decide ?P] => destruct (bool_decide P) end;
  repeat match goal with |- context [store_call faults ?k ?run ?w0] =>
    let Hrun := fresh "Hrun" in
    destruct (store_call_cases faults k run w0) as [[-> _]|(? & ? & _ & Hrun & ->)];
    cbv beta iota
  end;
  norm_world;
  (split; [eexists; split; [reflexivity|split; [simpl; lia|repeat constructor]]|]);
  repeat match goal with
    | H : match ?s !! ?k with _ => _ end = Some _ |- _ =>
        let E := fresh "E" in destruct (s !! k) eqn:E; simplify_eq/=
    | H : _ ≫= _ = Some _ |- _ =>
        apply bind_Some in H as (? & ? & ?); simplify_eq/=
    | H : match ?s !! ?k with _ => _ end = Some _ |- _ =>
        let E := fresh "E" in destruct (s !! k) eqn:E; simplify_eq/=
    end;
  eauto 8.
Qed.

Lemma plan_inr (file_path : Path) (c id : string) (d : Document) :
  plan fs file_path project_root = inr (c, id, d) ↔
  ∃ rel t content,
    relative_to file_path project_root = Some rel ∧ id = path_str rel
    ∧ get_collection_for_file file_path project_root = Some (Some c)
    ∧ get_file_type file_path project_root = Some (Some t)
    ∧ fs_text fs file_path = Some content
    ∧ (∃ m, (c, m) ∈ COLLECTION_MAPPINGS ∧ t = type_tag m)
    ∧ d = mkDocument content (mkMetadata id t c).
Proof.
  unfold plan.
  destruct (classify_cases file_path project_root)
    as [(H1 & H2 & _)|[(rel & H1 & H2 & H3 & _)|(rel & [n m] & H1 & H2 & Hcm & H3 & H4)]];
    rewrite H1, ?H2.
  - split; [done|]. by intros (? & ? & ? & ? & _).
  - split; [done|]. intros (? & ? & ? & _ & _ & H & _). by rewrite H3 in H.
  - cbn [fst snd] in *. destruct (fs_text fs file_path) as [content|].
    + split.
      * intros [= <- <- <-]. exists rel, (type_tag m), content. split_and!; eauto.
      * intros (rel' & t & content' & [= <-] & -> & Hc & Ht & [= <-] & _ & ->).
        rewrite H3 in Hc. rewrite H4 in Ht. by simplify_eq.
    + split; [done|]. by intros (? & ? & ? & _ & _ & _ & _ & ? & _).
Qed.

(** When the path is not classified or the file cannot be read,
    [reindex_file] raises before it contacts the store: no call is issued
    and the world is as it was. *)
Theorem unprocessable_file_leaves_store_alone (file_path : Path) (w : World) :
  (∀ c, get_collection_for_file file_path project_root ≠ Some (Some c))
  ∨ fs_text fs file_path = None →
  let res := reindex_file faults fs file_path project_root w in
  res.1 = w ∧ ∃ e, res.2 = inl e.
Proof.
  intros H. cbv zeta. rewrite reindex_file_plan.
  destruct (plan fs file_path project_root) as [e|[[c id] d]] eqn:Hplan.
  - unfold raise. eauto.
  - apply plan_inr in Hplan as (rel & t & content & _ & _ & Hc & _ & Htext & _).
    destruct H as [H|H]; [by destruct (H c)|by rewrite H in Htext].
Qed.

Lemma reindex_file_frame (file_path : Path) (w : World) :
  let res := reindex_file faults fs file_path project_root w in
  (∃ issued, calls res.1 = (calls w ++ issued)%list ∧ (length issued ≤ 3)%nat
             ∧ Forall (fun k => is_bootstrap k = false) issued)
  ∧ (∀ n, is_Some (store res.1 !! n) ↔ is_Some (store w !! n))
  ∧ (∀ c id, is_Some (doc_at (store w) c id) → is_Some (doc_at (store res.1) c id))
  ∧ (∀ c id,
       doc_at (store res.1) c id = doc_at (store w) c id
       ∨ ∃ rel t content,
           relative_to file_path project_root = Some rel ∧ id = path_str rel
           ∧ get_collection_for_file file_path project_root = Some (Some c)
           ∧ get_file_type file_path project_root = Some (Some t)
           ∧ fs_text fs file_path = Some content
           ∧ doc_at (store res.1) c id
             = Some (mkDocument content (mkMetadata id t c))).
Proof.
  cbv zeta. rewrite reindex_file_plan.
  destruct (plan fs file_path project_root) as [e|[[c0 id0] d]] eqn:Hplan.
  { unfold raise. cbn [fst].
    split; [exists []; split_and!; [by rewrite app_nil_r|simpl; lia|constructor]|].
    split_and!; try done. intros; by left. }
  apply plan_inr in Hplan as (rel & t & content & Hrel & -> & Hc & Ht & Htext & _ & ->).
  cbn [doc_content doc_metadata md_type].
  destruct (reconcile_cases c0 (path_str rel) t content w)
    as [(issued & Hcalls & [_ Hlen] & Hkinds) Hstore].
  split; [eauto|].
  destruct Hstore as [-> | (docs & Hdocs & -> & _)].
  { split_and!; try done. intros; by left. }
  split_and!.
  - intros n. destruct (decide (n = c0)) as [->|Hne].
    + rewrite lookup_insert_eq, Hdocs. split; eauto.
    + by rewrite lookup_insert_ne.
  - intros c id. unfold doc_at. destruct (decide (c = c0)) as [->|Hne].
    + rewrite lookup_insert_eq, Hdocs.
      destruct (decide (id = path_str rel)) as [->|Hne'].
      * rewrite lookup_insert_eq. eauto.
      * by rewrite lookup_insert_ne.
    + by rewrite lookup_insert_ne.
  - intros c id. unfold doc_at. destruct (decide (c = c0)) as [->|Hne].
    + rewrite lookup_insert_eq, Hdocs.
      destruct (decide (id = path_str rel)) as [->|Hne'].
      * right. exists rel, t, content. by rewrite lookup_insert_eq.
      * left. by rewrite lookup_insert_ne.
    + left. by rewrite lookup_insert_ne.
Qed.

(** [reindex_file] issues at most three calls, creates and removes no
    collection, removes no document, and changes at most one: the one under
    the relative path of the file in the collection of the file, which then
    holds the text read with the three metadata fields.  When it raises,
    the store is as it was. *)
Theorem reindex_file_touches_one_document (file_path : Path) (w : World) :
  let res := reindex_file faults fs file_path project_root w in
  (∃ issued, calls res.1 = (calls w ++ issued)%list ∧ (length issued ≤ 3)%nat
             ∧ Forall (fun k => is_bootstrap k = false) issued)
  ∧ (∀ n, is_Some (store res.1 !! n) ↔ is_Some (store w !! n))
  ∧ (∀ c id, is_Some (doc_at (store w) c id) → is_Some (doc_at (store res.1) c id))
  ∧ (∀ c id,
       doc_at (store res.1) c id = doc_at (store w) c id
       ∨ ∃ rel t content,
           relative_to file_path project_root = Some rel ∧ id = path_str rel
           ∧ get_collection_for_file file_path project_root = Some (Some c)
           ∧ get_file_type file_path project_root = Some (Some t)
           ∧ fs_text fs file_path = Some content
           ∧ doc_at (store res.1) c id
             = Some (mkDocument content (mkMetadata id t c)))
  ∧ (∀ e, res.2 = inl e → store res.1 = store w).
Proof.
  cbv zeta.
  destruct (reindex_file_frame file_path w) as (H1 & H2 & H3 & H4).
  split_and!; try done.
  intros e. rewrite reindex_file_plan.
  destruct (plan fs file_path project_root) as [e'|[[c id] d]]; [done|].
  destruct (reconcile_cases c id (md_type (doc_metadata d)) (doc_content d) w)
    as [_ [Hs|(docs & _ & _ & r & Hr)]]; [done|].
  rewrite Hr. done.
Qed.

Lemma reindex_file_well_tagged (file_path : Path) (w : World) :
  well_tagged (store w) →
  well_tagged (store (reindex_file faults fs file_path project_root w).1).
Proof.
  intros Hw c id d Hd.
  destruct (reindex_file_frame file_path w) as (_ & _ & _ & H).
  destruct (H c id) as [Heq|(rel & t & content & Hrel & -> & Hc & Ht & _ & Hdoc)].
  - rewrite Heq in Hd. by apply Hw.
  - rewrite Hdoc in Hd. injection Hd as <-. cbn. split; [done|]. split; [done|].
    destruct (collection_and_type_agree_cases file_path project_root c t Hc Ht) as (m & ? & ?).
    eauto.
Qed.

End ReindexFileMore.

(* ================================================================== *)
(** * Runs in which no call fails *)
(* ================================================================== *)

Section NoFaults.
Variable faults : Faults.
Variable fs : FS.
Variable project_root : Path.

Lemma no_faults_from_extend (w w' : World) (issued : list Call) :
  calls w' = (calls w ++ issued)%list →
  no_faults_from faults w → no_faults_from faults w'.
Proof.
  intros Hc Hw log call Hp. apply Hw. etrans; [|exact Hp].
  rewrite Hc. by apply prefix_app_r.
Qed.

Lemma count_if_le {A} (f : A → bool) (l : list A) : (count_if f l ≤ length l)%nat.
Proof. induction l as [|a l IH]; simpl; [lia|]. destruct (f a); lia. Qed.

(** With no failing call, [reindex_file] is determined by [plan] and by
    what the store holds. *)
Lemma reindex_file_no_faults (file_path : Path) (w : World) :
  no_faults_from faults w →
  let res := reindex_file faults fs file_path project_root w in
  no_faults_from faults res.1
  ∧ match plan fs file_path project_root with
    | inl e => res = (w, inl e)
    | inr (c, id, d) =>
        match store w !! c with
        | None => store res.1 = store w ∧ res.2 = inl (StoreError (GetCollection c))
        | Some docs =>
            store res.1 = <[c := <[id := d]> docs]> (store w)
            ∧ res.2 = inr (if docs !! id is Some _ then "updated" else "added")
        end
    end.
Proof.
  intros Hnf. cbv zeta.
  split.
  { destruct (reindex_file_frame faults fs project_root file_path w)
      as ((issued & Hc & _) & _).
    by eapply no_faults_from_extend. }
  rewrite reindex_file_plan.
  destruct (plan fs file_path project_root) as [e|[[c id] d]] eqn:Hplan; [done|].
  apply plan_inr in Hplan as (rel & t & content & _ & _ & _ & _ & _ & _ & ->).
  cbn [doc_content doc_metadata md_type].
  destruct (store w !! c) as [docs|] eqn:Hdocs.
  - destruct (docs !! id) as [d0|] eqn:Hid.
    + rewrite (reconcile_present faults c id t content w docs Hdocs);
        [done|by rewrite Hid|apply Hnf..]; first [reflexivity|by apply prefix_app_r].
    + rewrite (reconcile_absent faults c id t content w docs Hdocs Hid);
        [done|apply Hnf..]; first [reflexivity|by apply prefix_app_r].
  - unfold reconcile, bind, get_collection.
    rewrite store_call_raises by (right; by rewrite Hdocs). done.
Qed.

Lemma cannot_reconcile_stable (s s' : Store) (file_path : Path) :
  (∀ n, is_Some (s' !! n) ↔ is_Some (s !! n)) →
  cannot_reconcile fs s' project_root file_path
  = cannot_reconcile fs s project_root file_path.
Proof.
  intros H. unfold cannot_reconcile.
  destruct (plan fs file_path project_root) as [e|[[c id] d]]; [done|].
  specialize (H c). destruct (s !! c), (s' !! c); try done.
  - destruct H as [_ H]. by destruct H.
  - destruct H as [H _]. by destruct H.
Qed.

Lemma count_if_ext {A} (f g : A → bool) (l : list A) :
  (∀ a, f a = g a) → count_if f l = count_if g l.
Proof. intros H. induction l as [|a l IH]; simpl; [done|]. by rewrite H, IH. Qed.

Lemma already_stored_mono (s s' : Store) (file_path : Path) :
  (∀ n, is_Some (s' !! n) ↔ is_Some (s !! n)) →
  (∀ c id, is_Some (doc_at s c id) → is_Some (doc_at s' c id)) →
  already_stored fs s project_root file_path →
  already_stored fs s' project_root file_path.
Proof.
  intros Hcoll Hdocs. unfold already_stored.
  destruct (plan fs file_path project_root) as [e|[[c id] d]]; [done|].
  intros H Hc. apply Hdocs, H. by apply Hcoll.
Qed.

(** One turn of the loop with no failing call. *)
Lemma reindex_one_no_faults (file_path : Path) (stats : Stats) (w : World) :
  no_faults_from faults w →
  let out := reindex_one faults fs project_root file_path stats w in
  let fails := cannot_reconcile fs (store w) project_root file_path in
  no_faults_from faults out.1
  ∧ (∀ n, is_Some (store out.1 !! n) ↔ is_Some (store w !! n))
  ∧ (∀ c id, is_Some (doc_at (store w) c id) → is_Some (doc_at (store out.1) c id))
  ∧ already_stored fs (store out.1) project_root file_path
  ∧ skipped out.2 = skipped stats
  ∧ errors out.2 = errors stats + (if fails then 1 else 0)
  ∧ added out.2 + updated out.2
    = added stats + updated stats + (if fails then 0 else 1)
  ∧ (already_stored fs (store w) project_root file_path →
     added out.2 = added stats).
Proof.
  intros Hnf. cbv zeta.
  destruct (reindex_one_cases faults fs project_root file_path stats w) as [Hw Hst].
  destruct (reindex_file_no_faults file_path w Hnf) as [Hnf' Hres].
  destruct (reindex_file_frame faults fs project_root file_path w)
    as (_ & Hcoll & Hmono & _).
  rewrite Hw. split; [done|]. split; [done|]. split; [done|].
  unfold already_stored, cannot_reconcile in *.
  destruct (plan fs file_path project_root) as [e|[[c id] d]].
  { rewrite Hres in Hst. cbn [fst snd] in *.
    destruct Hst as [[? _]|[[? _]|[_ ->]]]; try done. cbn. split_and!; try done; lia. }
  destruct (store w !! c) as [docs|] eqn:Hdocs.
  - destruct Hres as [Hstore Hr]. rewrite Hr in Hst.
    split.
    { intros _. rewrite Hstore. unfold doc_at. by rewrite !lookup_insert_eq. }
    unfold doc_at. rewrite Hdocs.
    destruct (docs !! id) as [d0|] eqn:Hid;
      destruct Hst as [[? ->]|[[? ->]|[[? ?] _]]]; try done; cbn;
      split_and!; try done; try lia.
    intros Hal. by destruct (Hal ltac:(eauto)) as [? ?].
  - destruct Hres as [Hstore Hr]. rewrite Hr in Hst.
    split.
    { rewrite Hstore, Hdocs. by intros [? ?]. }
    destruct Hst as [[? _]|[[? _]|[_ ->]]]; try done. cbn. split_and!; try done; lia.
Qed.

(** The loop with no failing call: the files that cannot be reconciled
    are the errors, all others are added or updated and are stored
    afterwards; when all were stored before, none is added. *)
Lemma reindex_loop_no_faults (files : list Path) (stats : Stats) (w : World) :
  no_faults_from faults w →
  let out := reindex_loop faults fs project_root files stats w in
  let failing := count_if (cannot_reconcile fs (store w) project_root) files in
  no_faults_from faults out.1
  ∧ (∀ n, is_Some (store out.1 !! n) ↔ is_Some (store w !! n))
  ∧ (∀ c id, is_Some (doc_at (store w) c id) → is_Some (doc_at (store out.1) c id))
  ∧ (∀ f, f ∈ files → already_stored fs (store out.1) project_root f)
  ∧ skipped out.2 = skipped stats
  ∧ errors out.2 = errors stats + failing
  ∧ added out.2 + updated out.2
    = added stats + updated stats + (length files - failing)
  ∧ ((∀ f, f ∈ files → already_stored fs (store w) project_root f) →
     added out.2 = added stats).
Proof.
  revert stats w. induction files as [|f files IH]; intros stats w Hnf; cbv zeta.
  { cbn. split_and!; try done; try lia. intros f Hf. by apply elem_of_nil in Hf. }
  cbn [reindex_loop count_if length].
  destruct (reindex_one_no_faults f stats w Hnf)
    as (Hnf1 & Hcoll1 & Hmono1 & Hst1 & Hsk1 & Herr1 & Hau1 & Hadd1).
  destruct (reindex_one faults fs project_root f stats w) as [w1 stats1].
  cbn [fst snd] in *.
  destruct (IH stats1 w1 Hnf1)
    as (Hnf2 & Hcoll2 & Hmono2 & Hst2 & Hsk2 & Herr2 & Hau2 & Hadd2).
  rewrite (count_if_ext _ (cannot_reconcile fs (store w) project_root)) in Herr2, Hau2
    by (intros a; by apply cannot_reconcile_stable).
  pose proof (count_if_le (cannot_reconcile fs (store w) project_root) files) as Hle.
  split_and!.
  - done.
  - intros n. by rewrite Hcoll2.
  - auto.
  - intros f' [->|Hf']%elem_of_cons; [|by apply Hst2].
    by apply (already_stored_mono (store w1)).
  - lia.
  - destruct (cannot_reconcile fs (store w) project_root f); lia.
  - destruct (cannot_reconcile fs (store w) project_root f); lia.
  - intros Hall. rewrite Hadd2, Hadd1; [done|apply Hall; left|].
    intros f' Hf'. apply (already_stored_mono (store w)); [done|done|].
    apply Hall. by right.
Qed.

(** Running the loop again over the same files, with the filesystem as it
    was and no call failing in either run: nothing is added, what the first
    run added or updated is updated, and the same files are in error. *)
Theorem rerun_updates_what_was_reconciled (files : list Path) (w : World) :
  no_faults_from faults w →
  let first := reindex_loop faults fs project_root files (mkStats 0 0 0 0) w in
  let second :=
    reindex_loop faults fs project_root files (mkStats 0 0 0 0) first.1 in
  added second.2 = 0
  ∧ updated second.2 = added first.2 + updated first.2
  ∧ errors second.2 = errors first.2
  ∧ skipped second.2 = 0.
Proof.
  intros Hnf. cbv zeta.
  destruct (reindex_loop_no_faults files (mkStats 0 0 0 0) w Hnf)
    as (Hnf1 & Hcoll1 & _ & Hst1 & _ & Herr1 & Hau1 & _).
  destruct (reindex_loop faults fs project_root files (mkStats 0 0 0 0) w)
    as [w1 stats1]. cbn [fst snd] in *.
  destruct (reindex_loop_no_faults files (mkStats 0 0 0 0) w1 Hnf1)
    as (_ & _ & _ & _ & Hsk2 & Herr2 & Hau2 & Hadd2).
  rewrite (count_if_ext _ (cannot_reconcile fs (store w) project_root)) in Herr2, Hau2
    by (intros a; by apply cannot_reconcile_stable).
  specialize (Hadd2 Hst1). cbn in *. lia.
Qed.

End NoFaults.

(* ================================================================== *)
(** * The command as a whole *)
(* ================================================================== *)

Section CommandMore.
Variable faults : Faults.
Variable fs : FS.
Variable project_root : Path.

Lemma count_if_none {A} (f : A → bool) (l : list A) :
  (∀ a, a ∈ l → f a = false) → count_if f l = 0.
Proof.
  induction l as [|a l IH]; intros H; simpl; [done|].
  rewrite (H a) by left. rewrite IH; [done|]. intros b Hb. apply H. by right.
Qed.

Lemma create_collections_no_faults (missing : list string) (w : World) :
  no_faults_from faults w →
  ∃ w', create_collections faults missing w = (w', inr tt).
Proof.
  revert w. induction missing as [|name missing IH]; intros w Hnf; simpl.
  { unfold ret. eauto. }
  unfold bind.
  destruct (get_or_create_collection_store faults name w) as (Hc & _ & _ & _ & Hr).
  destruct (get_or_create_collection faults name w) as [w1 [e|[]]] eqn:Hg;
    cbn [fst snd] in *.
  - exfalso. unfold get_or_create_collection, store_call in Hg.
    rewrite (Hnf (calls w)) in Hg by reflexivity.
    destruct (store w !! name); simplify_eq.
  - apply IH. by eapply no_faults_from_extend.
Qed.

(** With no failing call, a run that is neither a dry run nor declined
    reaches the loop, with the four collections in place and the documents
    as they were. *)
Lemma reindex_command_no_faults (file_path type directory : option string)
    (interactive confirm : bool) (files : list Path) (w : World) :
  no_faults_from faults w →
  fs_exists fs (get_chromadb_path project_root) = true →
  get_files_to_reindex fs project_root file_path type directory = inr files →
  files ≠ [] →
  (interactive = true → confirm = true) →
  ∃ wb,
    no_faults_from faults wb
    ∧ (∀ n, n ∈ REQUIRED_COLLECTIONS → is_Some (store wb !! n))
    ∧ same_docs (store w) (store wb)
    ∧ reindex_command faults fs project_root file_path type directory
                      false interactive confirm w
      = (let out := reindex_loop faults fs project_root files (mkStats 0 0 0 0) wb in
         (out.1, Summary out.2)).
Proof.
  intros Hnf Hdb Hfiles Hne Hconfirm.
  unfold reindex_command, bind, ret. rewrite Hdb. cbn [negb].
  unfold open_client.
  rewrite (store_call_ok faults _ _ w (store w) tt) by (apply Hnf || done; reflexivity).
  set (w0 := mkWorld (store w) (calls w ++ [PersistentClient])).
  assert (Hnf0 : no_faults_from faults w0) by (by eapply no_faults_from_extend).
  destruct (ensure_collections_frame faults w0) as [Hdocs (issued & Hcalls & _)].
  destruct (ensure_collections faults w0) as [wb [e|created]] eqn:Hens.
  { exfalso. unfold ensure_collections, verify_collections, list_collections,
      bind, ret in Hens.
    rewrite (store_call_ok faults _ _ w0 (store w0) (elements (dom (store w0))))
      in Hens by (apply Hnf0 || done; reflexivity).
    match type of Hens with context [create_collections faults ?l ?w1] =>
      destruct (create_collections_no_faults l w1) as [w2 Hcr] end.
    { eapply no_faults_from_extend; [|exact Hnf0]. reflexivity. }
    rewrite Hcr in Hens. done. }
  cbn [fst snd] in *. exists wb. split_and!.
  - by eapply no_faults_from_extend.
  - by eapply ensure_collections_all_exist.
  - exact Hdocs.
  - rewrite Hfiles. rewrite decide_False by done.
    assert (interactive && negb confirm = false) as ->.
    { destruct interactive; [|done]. by rewrite Hconfirm. }
    by destruct (reindex_loop _ _ _ _ _ _).
Qed.

(** A selected file that can be read can be reconciled once the four
    collections exist. *)
Lemma selected_file_can_be_reconciled (file_path type directory : option string)
    (files : list Path) (s : Store) (f : Path) :
  get_files_to_reindex fs project_root file_path type directory = inr files →
  f ∈ files → is_Some (fs_text fs f) →
  (∀ n, n ∈ REQUIRED_COLLECTIONS → is_Some (s !! n)) →
  cannot_reconcile fs s project_root f = false
  ∧ ∃ c id d, plan fs f project_root = inr (c, id, d) ∧ c ∈ REQUIRED_COLLECTIONS.
Proof.
  intros Hfiles Hf [content Htext] Hall.
  destruct (selected_files_are_classified _ _ _ _ _ _ _ Hfiles Hf) as [c Hc].
  destruct (classify_cases f project_root)
    as [(_ & H & _)|[(? & _ & _ & H & _)|(rel & [n m] & Hrel & _ & Hcm & H & Ht)]];
    rewrite H in Hc; try done.
  cbn [fst snd] in *. injection Hc as <-.
  assert (Hreq : n ∈ REQUIRED_COLLECTIONS).
  { unfold REQUIRED_COLLECTIONS. by apply (list_elem_of_fmap_2 fst _ (n, m)). }
  assert (Hplan : plan fs f project_root
                  = inr (n, path_str rel,
                         mkDocument content (mkMetadata (path_str rel) (type_tag m) n))).
  { apply plan_inr. exists rel, (type_tag m), content. split_and!; eauto. }
  split; [|eauto]. unfold cannot_reconcile. rewrite Hplan.
  by destruct (Hall n Hreq) as [? ->].
Qed.

(** A full run and its rerun.  When no call fails and every selected file
    can be read, the run reports no error and accounts for each file as
    added or updated; run again at once, the command reports every file as
    updated and none as added. *)
Theorem healthy_run_then_rerun (file_path type directory : option string)
    (interactive confirm : bool) (files : list Path) (w : World) :
  no_faults_from faults w →
  fs_exists fs (get_chromadb_path project_root) = true →
  get_files_to_reindex fs project_root file_path type directory = inr files →
  files ≠ [] →
  (∀ f, f ∈ files → is_Some (fs_text fs f)) →
  (interactive = true → confirm = true) →
  let run := reindex_command faults fs project_root file_path type directory
               false interactive confirm in
  (∃ stats, (run w).2 = Summary stats
            ∧ errors stats = 0 ∧ skipped stats = 0
            ∧ added stats + updated stats = length files)
  ∧ (run (run w).1).2 = Summary (mkStats 0 (length files) 0 0).
Proof.
  intros Hnf Hdb Hfiles Hne Hread Hconfirm. cbv zeta.
  destruct (reindex_command_no_faults file_path type directory interactive confirm
              files w Hnf Hdb Hfiles Hne Hconfirm)
    as (wb & Hnfb & Hallb & _ & ->).
  destruct (reindex_loop_no_faults faults fs project_root files (mkStats 0 0 0 0) wb Hnfb)
    as (Hnf1 & Hcoll1 & _ & Hst1 & Hsk1 & Herr1 & Hau1 & _).
  rewrite (count_if_none (cannot_reconcile fs (store wb) project_root)) in Herr1, Hau1
    by (intros f Hf;
        by destruct (selected_file_can_be_reconciled _ _ _ _ (store wb) f Hfiles Hf
                       (Hread f Hf) Hallb)).
  destruct (reindex_loop faults fs project_root files (mkStats 0 0 0 0) wb)
    as [w1 stats1]. cbn [fst snd] in *.
  split.
  { exists stats1. cbn [added updated skipped errors] in *. split_and!; [done|lia..]. }
  destruct (reindex_command_no_faults file_path type directory interactive confirm
              files w1 Hnf1 Hdb Hfiles Hne Hconfirm)
    as (wb2 & Hnfb2 & Hallb2 & Hdocs2 & ->).
  destruct (reindex_loop_no_faults faults fs project_root files (mkStats 0 0 0 0)
              wb2 Hnfb2)
    as (_ & _ & _ & _ & Hsk2 & Herr2 & Hau2 & Hadd2).
  rewrite (count_if_none (cannot_reconcile fs (store wb2) project_root)) in Herr2, Hau2
    by (intros f Hf;
        by destruct (selected_file_can_be_reconciled _ _ _ _ (store wb2) f Hfiles Hf
                       (Hread f Hf) Hallb2)).
  assert (Hstored2 : ∀ f, f ∈ files → already_stored fs (store wb2) project_root f).
  { intros f Hf. specialize (Hst1 f Hf). unfold already_stored in *.
    destruct (selected_file_can_be_reconciled _ _ _ _ (store wb2) f Hfiles Hf
                (Hread f Hf) Hallb2) as (_ & c & id & d & Hplan & Hreq).
    rewrite Hplan in *. intros _. rewrite Hdocs2. apply Hst1, Hcoll1. auto. }
  specialize (Hadd2 Hstored2).
  destruct (reindex_loop faults fs project_root files (mkStats 0 0 0 0) wb2)
    as [w2 [a2 u2 s2 e2]]. cbn in *. f_equal. f_equal; lia.
Qed.

(** A summary accounts for every selected file exactly once: added,
    updated and errors add up to the number of files selected. *)
Theorem summary_accounts_for_every_file (file_path type directory : option string)
    (dry_run interactive confirm : bool) (w : World) (stats : Stats) :
  (reindex_command faults fs project_root file_path type directory
                   dry_run interactive confirm w).2 = Summary stats →
  ∃ files,
    get_files_to_reindex fs project_root file_path type directory = inr files
    ∧ files ≠ []
    ∧ added stats + updated stats + errors stats = length files
    ∧ skipped stats = 0.
Proof.
  intros H.
  destruct (reindex_command _ _ _ _ _ _ _ _ _ _) as [w' r] eqn:Hc.
  cbn [snd] in H. subst r.
  pose proof Hc as Hc'.
  apply reindex_command_summary in Hc as (w0 & files & Hfiles & _ & Hl).
  exists files. split; [done|].
  destruct (reindex_loop_tally faults fs project_root files (mkStats 0 0 0 0) w0)
    as [He Hau].
  pose proof (reindex_loop_skipped faults fs project_root files (mkStats 0 0 0 0) w0)
    as Hsk.
  rewrite Hl in He, Hau, Hsk. cbn in He, Hau, Hsk.
  split_and!; [|lia|done].
  intros ->. unfold reindex_command, bind, ret in Hc'.
  destruct (negb _); [done|].
  destruct (open_client faults w) as [? [?|?]]; [done|].
  destruct (ensure_collections faults _) as [? [?|?]]; [done|].
  rewrite Hfiles in Hc'. by rewrite decide_True in Hc'.
Qed.

End CommandMore.

(* ================================================================== *)
(** * How a run of the command ends *)
(* ================================================================== *)

Section CommandShape.
Variable faults : Faults.
Variable fs : FS.
Variable project_root : Path.

(** The ways through [reindex_command]: after the client is opened and
    the collections bootstrapped (world [wb]), the run stops there, or goes
    through the dry-run report, or through the loop. *)
Lemma reindex_command_shape (file_path type directory : option string)
    (dry_run interactive confirm : bool) (w : World) :
  let res := reindex_command faults fs project_root file_path type directory
               dry_run interactive confirm w in
  ∃ wb,
    frame is_bootstrap same_docs w wb
    ∧ ((res.1 = wb
        ∧ (res.2 = NotInitialized ∨ (∃ e, res.2 = Failed e)
           ∨ res.2 = NoFiles ∨ res.2 = Declined))
       ∨ (∃ files,
            get_files_to_reindex fs project_root file_path type directory = inr files
            ∧ files ≠ [] ∧ dry_run = true
            ∧ res.1 = (display_dry_run_report faults files project_root wb).1
            ∧ match (display_dry_run_report faults files project_root wb).2 with
              | inl e => res.2 = Failed e
              | inr report => res.2 = DryRun report
              end)
       ∨ (∃ files,
            get_files_to_reindex fs project_root file_path type directory = inr files
            ∧ files ≠ [] ∧ dry_run = false
            ∧ res = (let out := reindex_loop faults fs project_root files
                                  (mkStats 0 0 0 0) wb in
                     (out.1, Summary out.2)))).
Proof.
  cbv zeta. unfold reindex_command, bind, ret.
  destruct (negb _).
  { exists w. split; [apply frame_refl; apply _|]. left. auto. }
  assert (H1 : frame is_bootstrap same_docs w (open_client faults w).1).
  { apply respects_store_call; [apply _|done|]. by intros s s' a [= <- _]. }
  destruct (open_client faults w) as [w1 [e|?]]; cbn [fst] in H1.
  { exists w1. split; [done|]. left. eauto 6. }
  pose proof (ensure_collections_frame faults w1) as H2.
  destruct (ensure_collections faults w1) as [w2 [e|?]]; cbn [fst] in H2.
  { exists w2. split; [by eapply (frame_trans _ _ w w1)|]. left. eauto 6. }
  exists w2. split; [by eapply (frame_trans _ _ w w1)|].
  destruct (get_files_to_reindex _ _ _ _ _) as [e|files]; [left; eauto 6|].
  case_decide; [left; eauto 6|].
  destruct dry_run.
  { right; left. exists files. split_and!; try done.
    - by destruct (display_dry_run_report _ _ _ _) as [? [?|?]].
    - by destruct (display_dry_run_report _ _ _ _) as [? [?|?]]. }
  destruct (interactive && negb confirm); [left; eauto 6|].
  right; right. exists files. split_and!; try done.
  by destruct (reindex_loop _ _ _ _ _ _).
Qed.

Lemma well_tagged_same_docs (s s' : Store) :
  same_docs s s' → well_tagged s → well_tagged s'.
Proof. intros H Hw c id d Hd. rewrite H in Hd. by apply Hw. Qed.

Lemma reindex_loop_well_tagged (files : list Path) (stats : Stats) (w : World) :
  well_tagged (store w) →
  well_tagged (store (reindex_loop faults fs project_root files stats w).1).
Proof.
  revert stats w. induction files as [|f files IH]; intros stats w Hw; [done|].
  cbn [reindex_loop].
  destruct (reindex_one_cases faults fs project_root f stats w) as [Hw1 _].
  destruct (reindex_one faults fs project_root f stats w) as [w1 stats1].
  cbn [fst] in Hw1. apply IH. rewrite Hw1. by apply reindex_file_well_tagged.
Qed.

(** The command keeps the store well tagged: if every document carries
    its collection, its identifier and the type of its collection before a
    run, so does every document after it, however the run ends. *)
Theorem documents_stay_well_tagged (file_path type directory : option string)
    (dry_run interactive confirm : bool) (w : World) :
  well_tagged (store w) →
  well_tagged
    (store (reindex_command faults fs project_root file_path type directory
                            dry_run interactive confirm w).1).
Proof.
  intros Hw.
  destruct (reindex_command_shape file_path type directory dry_run interactive
              confirm w) as (wb & [Hdocs _] & Hres).
  apply (well_tagged_same_docs _ _ Hdocs) in Hw.
  destruct Hres as [[-> _]|[(files & _ & _ & _ & -> & _)|(files & _ & _ & _ & ->)]].
  - done.
  - destruct (display_dry_run_report_reads faults files project_root wb) as [<- _].
    done.
  - by apply reindex_loop_well_tagged.
Qed.

(** Only a run that ends with a summary writes: a run that ends in any
    other way (not initialized, failed, no files, dry run, declined) has
    issued no insert and no update and leaves every document as it was. *)
Theorem only_a_summary_run_writes (file_path type directory : option string)
    (dry_run interactive confirm : bool) (w : World) :
  let res := reindex_command faults fs project_root file_path type directory
               dry_run interactive confirm w in
  (∀ stats, res.2 ≠ Summary stats) →
  same_docs (store w) (store res.1)
  ∧ ∃ issued, calls res.1 = (calls w ++ issued)%list
              ∧ Forall (fun c => is_write c = false) issued.
Proof.
  cbv zeta. intros Hres.
  assert (Hframe : frame (fun c => negb (is_write c)) same_docs w
            (reindex_command faults fs project_root file_path type directory
               dry_run interactive confirm w).1).
  { destruct (reindex_command_shape file_path type directory dry_run interactive
                confirm w) as (wb & Hwb & Hcases).
    assert (Hwb' : frame (fun c => negb (is_write c)) same_docs w wb).
    { eapply frame_weaken; [| |exact Hwb]; [by intros []|done]. }
    destruct Hcases as [[-> _]|[(files & _ & _ & _ & -> & _)|(files & _ & _ & _ & Heq)]].
    - done.
    - eapply frame_trans; [apply _|exact Hwb'|].
      eapply frame_weaken; [| |apply display_dry_run_report_reads].
      + by intros [].
      + by intros s s' <-.
    - rewrite Heq in Hres. by destruct (Hres _ eq_refl). }
  destruct Hframe as [Hd (issued & Hc & Hk)]. split; [done|].
  exists issued. split; [done|].
  eapply Forall_impl; [exact Hk|]. intros c Hc'. by apply negb_true_iff.
Qed.

End CommandShape.

(* ================================================================== *)
(** * The dry-run report *)
(* ================================================================== *)

Section Report.
Variable faults : Faults.
Variable fs : FS.
Variable project_root : Path.

Lemma display_dry_run_report_rows (files : list Path) (w : World) :
  (∀ f, f ∈ files → ∃ c, get_collection_for_file f project_root = Some (Some c)) →
  match (display_dry_run_report faults files project_root w).2 with
  | inr report => Forall2 (row_of project_root) files report
  | inl e => ∃ c, e = StoreError (GetCollection c)
  end.
Proof.
  revert w. induction files as [|f files IH]; intros w Hall.
  { cbn. constructor. }
  cbn [display_dry_run_report]. unfold bind, of_option, ret, raise, try_except.
  destruct (Hall f ltac:(left)) as [c Hc].
  destruct (classify_cases f project_root)
    as [(_ & H & _)|[(? & _ & _ & H & _)|(rel & cm & Hrel & _ & Hcm & H & _)]];
    rewrite H in Hc; try done.
  injection Hc as Hc. rewrite Hrel, H, Hc.
  rewrite (classified_truthy project_root f c) by (by rewrite H, Hc).
  unfold get_collection, coll_get.
  match goal with |- context [store_call faults ?k ?run ?w0] =>
    destruct (store_call_cases faults k run w0) as [[-> _]|(s1 & h & _ & _ & ->)]
  end; [cbn [snd]; eauto|].
  match goal with |- context [store_call faults ?k ?run ?w0] =>
    destruct (store_call_cases faults k run w0) as [[-> _]|(s2 & ids & _ & _ & ->)]
  end.
  - match goal with |- context [display_dry_run_report faults files project_root ?w0] =>
      specialize (IH w0 ltac:(intros; apply Hall; by right));
      destruct (display_dry_run_report faults files project_root w0) as [w3 [e|rows]]
    end; cbn [snd] in *; [done|].
    constructor; [|done]. exists rel. auto.
  - match goal with |- context [display_dry_run_report faults files project_root ?w0] =>
      specialize (IH w0 ltac:(intros; apply Hall; by right));
      destruct (display_dry_run_report faults files project_root w0) as [w3 [e|rows]]
    end; cbn [snd] in *; [done|].
    constructor; [|done]. exists rel. destruct (bool_decide _); auto.
Qed.

(** A dry run that prints its report has one row for each selected file,
    in processing order; each row carries the relative path of its file
    and says either that the document exists and will be updated or that it
    is new and will be added.  No selected file is reported as invalid. *)
Theorem dry_run_report_has_a_row_per_file (file_path type directory : option string)
    (interactive confirm : bool) (w : World) (report : list Row) :
  (reindex_command faults fs project_root file_path type directory
                   true interactive confirm w).2 = DryRun report →
  ∃ files,
    get_files_to_reindex fs project_root file_path type directory = inr files
    ∧ Forall2 (row_of project_root) files report.
Proof.
  intros H.
  destruct (reindex_command_shape faults fs project_root file_path type directory
              true interactive confirm w) as (wb & _ & Hcases).
  rewrite H in Hcases.
  destruct Hcases as [[_ Hr]|[(files & Hfiles & _ & _ & _ & Hr)|(files & _ & _ & ? & _)]];
    [naive_solver| |done].
  exists files. split; [done|].
  pose proof (display_dry_run_report_rows files wb) as Hrows.
  destruct (display_dry_run_report faults files project_root wb).2 as [e|rows];
    [done|].
  injection Hr as <-. apply Hrows. intros f Hf.
  by eapply selected_files_are_classified.
Qed.

(** The dry run tells what the run will do to a classified file when no
    call fails: "Exists / Update" when the run updates it, "New / Add" when
    the run adds it.  The dry run does not read the file: for a file that
    cannot be read the row is the same, and the run raises. *)
Theorem dry_run_predicts_the_run (f rel : Path) (c : string)
    (docs : gmap string Document) (w : World) :
  no_faults_from faults w →
  relative_to f project_root = Some rel →
  get_collection_for_file f project_root = Some (Some c) →
  store w !! c = Some docs →
  let stored := if docs !! path_str rel is Some _ then true else false in
  (display_dry_run_report faults [f] project_root w).2
  = inr [ if stored then (path_str rel, "Exists", "Update")
          else (path_str rel, "New", "Add") ]
  ∧ (reindex_file faults fs f project_root w).2
    = match fs_text fs f with
      | Some _ => inr (if stored then "updated" else "added")
      | None => inl (ReadError f)
      end.
Proof.
  intros Hnf Hrel Hc Hdocs. cbv zeta. split.
  - cbn [display_dry_run_report]. unfold bind, of_option, ret, raise, try_except.
    rewrite Hrel, Hc. rewrite (classified_truthy project_root f c Hc).
    unfold get_collection.
    rewrite (store_call_ok faults _ _ w (store w) c);
      [|apply Hnf; reflexivity|by rewrite Hdocs].
    unfold coll_get.
    erewrite store_call_ok; [| |cbn [store]; rewrite Hdocs; reflexivity].
    2: { apply Hnf. cbn [calls]. by apply prefix_app_r. }
    destruct (docs !! path_str rel); reflexivity.
  - destruct (classify_cases f project_root)
      as [(_ & H & _)|[(? & _ & _ & H & _)|(rel' & [n m] & Hrel' & Hcl & Hcm & H & Ht)]];
      rewrite H in Hc; try done.
    cbn [fst snd] in *. injection Hc as <-. rewrite Hrel in Hrel'. injection Hrel' as <-.
    destruct (reindex_file_no_faults faults fs project_root f w Hnf) as [_ Hres].
    unfold plan in Hres. rewrite Hrel, Hcl in Hres.
    destruct (fs_text fs f) as [content|].
    + cbn [fst snd] in Hres. rewrite Hdocs in Hres. destruct Hres as [_ ->].
      by destruct (docs !! path_str rel).
    + by rewrite Hres.
Qed.

End Report.

(* ================================================================== *)
(** * Validating a project *)
(* ================================================================== *)

Section Validate.
Variable faults : Faults.
Variable fs : FS.
Variable project_root : Path.

Lemma elem_of_directory_errors (e : ValidationError) :
  e ∈ directory_errors fs project_root ↔
  ∃ d, e = MissingDirectory d ∧ d ∈ REQUIRED_DIRS
       ∧ fs_exists fs (joinpath project_root d) = false.
Proof.
  unfold directory_errors. rewrite elem_of_flat_map. split.
  - intros (d & Hd & He). destruct (fs_exists fs _) eqn:Hex.
    + by apply elem_of_nil in He.
    + apply list_elem_of_singleton in He. eauto.
  - intros (d & -> & Hd & Hex). exists d. rewrite Hex. split; [done|left].
Qed.

Lemma directory_errors_nil :
  directory_errors fs project_root = [] ↔
  ∀ d, d ∈ REQUIRED_DIRS → fs_exists fs (joinpath project_root d) = true.
Proof.
  split.
  - intros Hnil d Hd. destruct (fs_exists fs _) eqn:Hex; [done|].
    assert (MissingDirectory d ∈ directory_errors fs project_root) as Hin
      by (apply elem_of_directory_errors; eauto).
    rewrite Hnil in Hin. by apply elem_of_nil in Hin.
  - intros Hall. destruct (directory_errors fs project_root) as [|e l] eqn:Hd; [done|].
    assert (e ∈ directory_errors fs project_root) as Hin by (rewrite Hd; left).
    apply elem_of_directory_errors in Hin as (d & _ & Hreq & Hex).
    by rewrite (Hall d Hreq) in Hex.
Qed.

(** The four ways the ChromaDB checks can go. *)
Lemma chromadb_errors_cases (w : World) :
  let res := chromadb_errors faults fs project_root w in
  let db := fs_exists fs (get_chromadb_path project_root) in
  store res.1 = store w
  ∧ (∃ issued, calls res.1 = (calls w ++ issued)%list
               ∧ issued `prefix_of` [PersistentClient; ListCollections])
  ∧ ((db = false ∧ res.2 = [DatabaseNotFound])
     ∨ (db = true ∧ faults (calls w) PersistentClient = true
        ∧ res.2 = [AccessError (StoreError PersistentClient)])
     ∨ (db = true ∧ faults (calls w) PersistentClient = false
        ∧ faults (calls w ++ [PersistentClient]) ListCollections = true
        ∧ res.2 = [AccessError (StoreError ListCollections)])
     ∨ (db = true ∧ faults (calls w) PersistentClient = false
        ∧ faults (calls w ++ [PersistentClient]) ListCollections = false
        ∧ ∃ missing,
            res.2 = MissingCollection <$> missing
            ∧ (∀ n, n ∈ missing ↔ n ∈ REQUIRED_COLLECTIONS ∧ store w !! n = None)
            ∧ (missing = [] ↔
               ∀ n, n ∈ REQUIRED_COLLECTIONS → is_Some (store w !! n)))).
Proof.
  cbv zeta. unfold chromadb_errors.
  destruct (fs_exists fs (get_chromadb_path project_root)).
  2: { cbn [fst snd]. split; [done|]. split; [|by left].
       exists []. rewrite app_nil_r. split; [done|]. apply prefix_nil. }
  unfold bind, open_client.
  destruct (faults (calls w) PersistentClient) eqn:Hpc.
  { rewrite (store_call_raises faults _ _ w) by (by left). cbn [fst snd store calls].
    split; [done|]. split; [|right; left; done].
    exists [PersistentClient]. split; [done|]. by exists [ListCollections]. }
  rewrite (store_call_ok faults _ _ w (store w) tt Hpc eq_refl).
  set (w0 := mkWorld (store w) (calls w ++ [PersistentClient])).
  destruct (verify_collections_spec faults w0) as (Hw & Hfail & Hok).
  destruct (verify_collections faults w0) as [w1 [e|missing]] eqn:Hv;
    cbn [fst snd] in *; subst w1; cbn [store calls].
  - split; [done|]. split.
    { exists [PersistentClient; ListCollections]. unfold w0. cbn [calls].
      by rewrite <- app_assoc. }
    destruct (faults (calls w ++ [PersistentClient]) ListCollections) eqn:Hlc.
    + specialize (Hfail Hlc). injection Hfail as ->. right; right; left. done.
    + by destruct (Hok Hlc) as (? & ? & _).
  - split; [done|]. split.
    { exists [PersistentClient; ListCollections]. unfold w0. cbn [calls].
      by rewrite <- app_assoc. }
    destruct (faults (calls w ++ [PersistentClient]) ListCollections) eqn:Hlc.
    + by specialize (Hfail Hlc).
    + destruct (Hok Hlc) as (missing' & [= <-] & _ & Hin & Hnil).
      right; right; right. split_and!; try done. by exists missing.
Qed.

(** Validation passes exactly when the project is initialized, the six
    required directories and the database file exist, the client opens,
    the listing answers, the four collections exist and Python is 3.10 or
    later.  A missing configuration file only adds a warning. *)
Theorem validation_passes_exactly_when (version : nat * nat) (w : World) :
  let res := validate_command faults fs project_root version w in
  ((∃ warnings, res.2 = ValidationPassed warnings) ↔
   is_cliplin_initialized fs project_root = true
   ∧ (∀ d, d ∈ REQUIRED_DIRS → fs_exists fs (joinpath project_root d) = true)
   ∧ fs_exists fs (get_chromadb_path project_root) = true
   ∧ faults (calls w) PersistentClient = false
   ∧ faults (calls w ++ [PersistentClient]) ListCollections = false
   ∧ (∀ n, n ∈ REQUIRED_COLLECTIONS → is_Some (store w !! n))
   ∧ python_ok version = true)
  ∧ (∀ warnings, res.2 = ValidationPassed warnings →
       warnings = if fs_exists fs (joinpath (joinpath project_root ".cliplin")
                                            "config.yaml")
                  then [] else [ConfigNotFound]).
Proof.
  cbv zeta. unfold validate_command.
  destruct (is_cliplin_initialized fs project_root).
  2: { cbn [negb snd]. split; [|done]. split; [by intros [? ?]|by intros [? _]]. }
  cbn [negb].
  destruct (chromadb_errors_cases w) as (_ & _ & Hcases).
  destruct (chromadb_errors faults fs project_root w) as [w' errors2].
  cbn [fst snd] in Hcases.
  rewrite <- directory_errors_nil.
  destruct (directory_errors fs project_root) as [|e1 l1].
  2: { cbn [app snd]. split; [|done]. split; [by intros [? ?]|by intros (_ & ? & _)]. }
  cbn [app].
  destruct errors2 as [|e2 l2].
  2: { cbn [app snd]. split; [|done]. split; [by intros [? ?]|].
       intros (_ & _ & Hdb & Hpc & Hlc & Hall & _).
       destruct Hcases as [[? _]|[(_ & ? & _)|[(_ & _ & ? & _)|(_ & _ & _ & m & Hm & _ & Hnil)]]];
         try congruence.
       rewrite (proj2 Hnil Hall) in Hm. done. }
  cbn [app].
  destruct (python_ok version).
  2: { cbn [snd]. split; [|done]. split; [by intros [? ?]|by intros (_ & _ & _ & _ & _ & _ & ?)]. }
  cbn [snd]. split; [|by intros ws [= <-]].
  split; [intros _|eauto].
  destruct Hcases as [[_ ?]|[(_ & _ & ?)|[(_ & _ & _ & ?)|(Hdb & Hpc & Hlc & m & Hm & _ & Hnil)]]];
    try done.
  symmetry in Hm. apply fmap_nil_inv in Hm. split_and!; try done. by apply Hnil.
Qed.

Lemma initialized_has_context_dir :
  is_cliplin_initialized fs project_root = true →
  fs_exists fs (joinpath project_root ".cliplin/data/context") = true.
Proof.
  unfold is_cliplin_initialized. intros [_ H]%andb_true_iff.
  change (joinpath project_root ".cliplin/data/context")
    with (project_root ++ [".cliplin"; "data"; "context"])%list.
  change (joinpath (joinpath (joinpath project_root ".cliplin") "data") "context")
    with (((project_root ++ [".cliplin"]) ++ ["data"]) ++ ["context"])%list in H.
  by rewrite <- !app_assoc in H.
Qed.

(** The errors of a failed validation, told apart: a directory is
    reported missing exactly when it is one of the five [docs] directories
    and does not exist -- never [.cliplin/data/context], whose presence was
    checked first; a collection is reported missing only when it is a
    required name absent from the store; the database and Python errors
    appear exactly when the file is missing and the version is older than
    3.10. *)
Theorem validation_errors_are_sound (version : nat * nat) (w : World)
    (errors : list ValidationError) (warnings : list ValidationWarning) :
  (validate_command faults fs project_root version w).2
  = ValidationFailed errors warnings →
  errors ≠ []
  ∧ (∀ d, MissingDirectory d ∈ errors ↔
       d ∈ ["docs/adrs"; "docs/business"; "docs/features"; "docs/ts4";
            "docs/ui-intent"]
       ∧ fs_exists fs (joinpath project_root d) = false)
  ∧ (∀ n, MissingCollection n ∈ errors →
       n ∈ REQUIRED_COLLECTIONS ∧ store w !! n = None)
  ∧ (DatabaseNotFound ∈ errors ↔
       fs_exists fs (get_chromadb_path project_root) = false)
  ∧ (PythonTooOld ∈ errors ↔ python_ok version = false).
Proof.
  unfold validate_command.
  destruct (is_cliplin_initialized fs project_root) eqn:Hinit; [|done].
  apply initialized_has_context_dir in Hinit.
  cbn [negb].
  destruct (chromadb_errors_cases w) as (_ & _ & Hcases).
  destruct (chromadb_errors faults fs project_root w) as [w' errors2].
  cbn [fst snd] in Hcases.
  set (errors3 := if python_ok version then [] else [PythonTooOld]).
  destruct (directory_errors fs project_root ++ errors2 ++ errors3)%list
    as [|e l] eqn:Herr; [done|].
  cbn [snd]. intros [= <- _]. split; [done|]. rewrite <- Herr. clear Herr e l.
  assert (H3 : ∀ x, x ∈ errors3 ↔ x = PythonTooOld ∧ python_ok version = false).
  { intros x. unfold errors3. destruct (python_ok version).
    - rewrite elem_of_nil. naive_solver.
    - rewrite list_elem_of_singleton. naive_solver. }
  assert (H1 : ∀ x, x ∈ directory_errors fs project_root ↔
            ∃ d, x = MissingDirectory d
                 ∧ d ∈ ["docs/adrs"; "docs/business"; "docs/features"; "docs/ts4";
                        "docs/ui-intent"]
                 ∧ fs_exists fs (joinpath project_root d) = false).
  { intros x. rewrite elem_of_directory_errors. unfold REQUIRED_DIRS.
    split; intros (d & -> & Hd & Hex); exists d; (split; [done|]);
      (split; [|done]); rewrite !elem_of_cons, elem_of_nil in *.
    - destruct Hd as [?|[?|[?|[?|[?|[->|[]]]]]]]; auto 10. congruence.
    - naive_solver. }
  assert (H2 : ∀ x, x ∈ errors2 →
            (x = DatabaseNotFound
             ∧ fs_exists fs (get_chromadb_path project_root) = false)
            ∨ (∃ e, x = AccessError e
                    ∧ fs_exists fs (get_chromadb_path project_root) = true)
            ∨ (∃ n, x = MissingCollection n ∧ n ∈ REQUIRED_COLLECTIONS
                    ∧ store w !! n = None
                    ∧ fs_exists fs (get_chromadb_path project_root) = true)).
  { intros x Hx.
    destruct Hcases as [[? ->]|[(? & _ & ->)|[(? & _ & _ & ->)|(? & _ & _ & m & -> & Hm & _)]]].
    - apply list_elem_of_singleton in Hx. auto.
    - apply list_elem_of_singleton in Hx. eauto.
    - apply list_elem_of_singleton in Hx. eauto.
    - apply list_elem_of_fmap in Hx as (n & -> & Hn). apply Hm in Hn as [? ?].
      right; right. eauto 6. }
  assert (H2' : fs_exists fs (get_chromadb_path project_root) = false →
                DatabaseNotFound ∈ errors2).
  { intros Hdb.
    destruct Hcases as [[_ ->]|[(? & _)|[(? & _)|(? & _)]]]; [left|congruence..]. }
  split_and!.
  - intros d. rewrite !elem_of_app, H1, H3. split.
    + intros [(d' & [= <-] & ?)|[Hx|[? _]]]; [done| |done].
      apply H2 in Hx. naive_solver.
    + intros ?. left. eauto.
  - intros n. rewrite !elem_of_app, H1, H3.
    intros [(? & ? & _)|[Hx|[? _]]]; [done| |done].
    apply H2 in Hx. naive_solver.
  - rewrite !elem_of_app, H1, H3. split.
    + intros [(? & ? & _)|[Hx|[? _]]]; [done| |done].
      apply H2 in Hx. naive_solver.
    + intros Hdb. right; left. by apply H2'.
  - rewrite !elem_of_app, H1, H3. split.
    + intros [(? & ? & _)|[Hx|[_ ?]]]; [done| |done].
      apply H2 in Hx. naive_solver.
    + intros ?. right; right. done.
Qed.

(** Validating changes nothing: the store is left as it is, and at most
    the client is opened and the collections listed. *)
Theorem validation_reads_only (version : nat * nat) (w : World) :
  let res := validate_command faults fs project_root version w in
  store res.1 = store w
  ∧ ∃ issued, calls res.1 = (calls w ++ issued)%list
              ∧ issued `prefix_of` [PersistentClient; ListCollections].
Proof.
  cbv zeta. unfold validate_command.
  destruct (negb _).
  { cbn [fst]. split; [done|]. exists []. rewrite app_nil_r. split; [done|].
    apply prefix_nil. }
  destruct (chromadb_errors_cases w) as (Hs & Hc & _).
  destruct (chromadb_errors faults fs project_root w) as [w' errors2].
  cbn [fst] in Hs, Hc.
  by destruct (directory_errors fs project_root ++ errors2 ++ _)%list.
Qed.

End Validate.

(* ================================================================== *)
(** * What the resolver hands to the loop *)
(* ================================================================== *)

Section Selected.
Variable fs : FS.
Variable project_root : Path.



End Selected.

(* ================================================================== *)
(** * The further properties on concrete projects *)
(* ================================================================== *)

Lemma classification_below_registered_directory_witness :
  let p := ["proj"; "docs"; "adrs"; "sub"; "b.md"] in
  get_collection_for_file p ["proj"]
  = Some (if path_match p "*.md" then Some "business-and-architecture" else None)
  ∧ get_file_type p ["proj"]
    = Some (if path_match p "*.md" then Some "adr" else None).
Proof.
  apply (classification_below_registered_directory ["proj"]
           ("business-and-architecture",
            mkMapping ["docs/adrs"; "docs/business"] "*.md" "adr")
           "docs/adrs" "sub" ["b.md"]); repeat constructor.
Defined.

Lemma verify_collections_reports_absent_witness :
  ∃ missing,
    (verify_collections no_faults empty_world).2 = inr missing
    ∧ (∀ n, n ∈ missing ↔ n ∈ REQUIRED_COLLECTIONS ∧ store empty_world !! n = None)
    ∧ NoDup missing
    ∧ missing `sublist_of` REQUIRED_COLLECTIONS
    ∧ (missing = [] ↔
       ∀ n, n ∈ REQUIRED_COLLECTIONS → is_Some (store empty_world !! n)).
Proof.
  destruct (verify_collections_reports_absent no_faults empty_world) as (_ & _ & H).
  apply H. reflexivity.
Defined.

Lemma initialize_collections_creates_all_witness :
  (∀ n, n ∈ REQUIRED_COLLECTIONS → is_Some (store initialized !! n))
  ∧ same_docs (store empty_world) (store initialized)
  ∧ calls initialized
    = (calls empty_world ++ (GetOrCreateCollection <$> REQUIRED_COLLECTIONS))%list
  ∧ (no_faults (calls initialized) ListCollections = false →
     (verify_collections no_faults initialized).2 = inr []).
Proof.
  apply (initialize_collections_creates_all no_faults empty_world initialized).
  vm_compute. reflexivity.
Defined.


Lemma initialize_collections_idempotent_witness :
  store (initialize_collections no_faults initialized).1 = store initialized
  ∧ store (ensure_collections no_faults initialized).1 = store initialized.
Proof.
  apply (initialize_collections_idempotent no_faults empty_world initialized).
  vm_compute. reflexivity.
Defined.

Lemma selection_arguments_take_precedence_witness :
  get_files_to_reindex demo_fs demo_root
    (Some "docs/features/login.feature") (Some "md") None
  = get_files_to_reindex demo_fs demo_root
      (Some "docs/features/login.feature") None (Some "docs/ts4").
Proof.
  destruct (selection_arguments_take_precedence demo_fs demo_root
              "docs/features/login.feature" "md"
              (Some "md") None None (Some "docs/ts4")) as [H _].
  apply H. discriminate.
Defined.


Lemma type_selection_knows_four_types_witness :
  ∃ files, get_files_to_reindex demo_fs demo_root None (Some "ts4") None = inr files.
Proof.
  destruct (type_selection_knows_four_types demo_fs demo_root "ts4" None)
    as (H & _); [discriminate|].
  apply H. repeat constructor.
Defined.

Lemma directory_selection_witness :
  ∃ files,
    get_files_to_reindex demo_fs demo_root None None (Some "docs/adrs") = inr files
    ∧ NoDup files
    ∧ ∀ p, p ∈ files ↔
           p ∈ fs_entries demo_fs
           ∧ below (joinpath demo_root "docs/adrs") p = true
           ∧ path_match p "*.md" = true.
Proof.
  destruct (directory_selection demo_fs demo_root "docs/adrs") as (_ & _ & H);
    [discriminate|].
  apply (H eq_refl ("business-and-architecture",
                    mkMapping ["docs/adrs"; "docs/business"] "*.md" "adr"));
    repeat constructor.
Defined.

Lemma all_selection_is_union_of_directories_witness :
  ∃ all,
    get_files_to_reindex demo_fs demo_root None None None = inr all
    ∧ demo_feature ∈ all.
Proof.
  destruct (all_selection_is_union_of_directories demo_fs demo_root)
    as (all & Hall & _ & _ & Hsub).
  exists all. split; [exact Hall|].
  apply (Hsub "feature" None [demo_feature]).
  - discriminate.
  - vm_compute. reflexivity.
  - repeat constructor.
Defined.

Lemma unprocessable_file_leaves_store_alone_witness :
  let res := reindex_file no_faults demo_fs demo_adr_a demo_root bootstrapped in
  res.1 = bootstrapped ∧ ∃ e, res.2 = inl e.
Proof.
  apply (unprocessable_file_leaves_store_alone no_faults demo_fs demo_root
           demo_adr_a bootstrapped).
  right. vm_compute. reflexivity.
Defined.

Lemma rerun_updates_what_was_reconciled_witness :
  let first := reindex_loop no_faults demo_fs demo_root demo_files
                 (mkStats 0 0 0 0) bootstrapped in
  let second := reindex_loop no_faults demo_fs demo_root demo_files
                  (mkStats 0 0 0 0) first.1 in
  added second.2 = 0
  ∧ updated second.2 = added first.2 + updated first.2
  ∧ errors second.2 = errors first.2
  ∧ skipped second.2 = 0.
Proof.
  apply (rerun_updates_what_was_reconciled no_faults demo_fs demo_root demo_files
           bootstrapped).
  intros log call _. reflexivity.
Defined.

Lemma healthy_run_then_rerun_witness :
  let run := reindex_command no_faults demo_fs demo_root None (Some "feature") None
               false false false in
  (∃ stats, (run empty_world).2 = Summary stats
            ∧ errors stats = 0 ∧ skipped stats = 0
            ∧ added stats + updated stats = length [demo_feature])
  ∧ (run (run empty_world).1).2 = Summary (mkStats 0 (length [demo_feature]) 0 0).
Proof.
  apply (healthy_run_then_rerun no_faults demo_fs demo_root None (Some "feature")
           None false false [demo_feature] empty_world).
  - intros log call _. reflexivity.
  - vm_compute. reflexivity.
  - vm_compute. reflexivity.
  - discriminate.
  - intros f Hf. apply list_elem_of_singleton in Hf. rewrite Hf.
    exists "text". vm_compute. reflexivity.
  - discriminate.
Defined.

Lemma summary_accounts_for_every_file_witness :
  ∃ files,
    get_files_to_reindex demo_fs demo_root None None None = inr files
    ∧ files ≠ []
    ∧ added (mkStats 2 0 0 1) + updated (mkStats 2 0 0 1) + errors (mkStats 2 0 0 1)
      = length files
    ∧ skipped (mkStats 2 0 0 1) = 0.
Proof.
  apply (summary_accounts_for_every_file no_faults demo_fs demo_root None None None
           false false false empty_world (mkStats 2 0 0 1)).
  vm_compute. reflexivity.
Defined.

Lemma documents_stay_well_tagged_witness :
  well_tagged
    (store (reindex_command no_faults demo_fs demo_root None None None
                            false false false empty_world).1).
Proof.
  apply (documents_stay_well_tagged no_faults demo_fs demo_root).
  intros c id d H. unfold doc_at in H. cbn [store empty_world] in H.
  rewrite lookup_empty in H. discriminate H.
Defined.

Lemma only_a_summary_run_writes_witness :
  let res := reindex_command no_faults demo_fs demo_root None None None
               false true false empty_world in
  same_docs (store empty_world) (store res.1)
  ∧ ∃ issued, calls res.1 = (calls empty_world ++ issued)%list
              ∧ Forall (fun c => is_write c = false) issued.
Proof.
  apply (only_a_summary_run_writes no_faults demo_fs demo_root None None None
           false true false empty_world).
  intros stats. vm_compute. discriminate.
Defined.

Lemma dry_run_report_has_a_row_per_file_witness :
  ∃ files,
    get_files_to_reindex demo_fs demo_root None None None = inr files
    ∧ Forall2 (row_of demo_root) files
        [ ("docs/adrs/a.md", "New", "Add");
          ("docs/adrs/sub/b.md", "New", "Add");
          ("docs/features/login.feature", "New", "Add") ].
Proof.
  apply (dry_run_report_has_a_row_per_file no_faults demo_fs demo_root None None None
           false false empty_world).
  vm_compute. reflexivity.
Defined.

Lemma dry_run_predicts_the_run_witness :
  (display_dry_run_report no_faults [demo_feature] demo_root bootstrapped).2
  = inr [ ("docs/features/login.feature", "New", "Add") ]
  ∧ (reindex_file no_faults demo_fs demo_feature demo_root bootstrapped).2
    = inr "added".
Proof.
  destruct (dry_run_predicts_the_run no_faults demo_fs demo_root demo_feature
              ["docs"; "features"; "login.feature"] "features" ∅ bootstrapped)
    as [H1 H2].
  - intros log call _. reflexivity.
  - reflexivity.
  - reflexivity.
  - vm_compute. reflexivity.
  - split; [rewrite H1|rewrite H2]; vm_compute; reflexivity.
Defined.

Lemma validation_passes_exactly_when_witness :
  is_cliplin_initialized valid_fs demo_root = true
  ∧ (∀ d, d ∈ REQUIRED_DIRS → fs_exists valid_fs (joinpath demo_root d) = true)
  ∧ fs_exists valid_fs (get_chromadb_path demo_root) = true
  ∧ no_faults (calls bootstrapped) PersistentClient = false
  ∧ no_faults (calls bootstrapped ++ [PersistentClient]) ListCollections = false
  ∧ (∀ n, n ∈ REQUIRED_COLLECTIONS → is_Some (store bootstrapped !! n))
  ∧ python_ok (3, 12) = true.
Proof.
  destruct (validation_passes_exactly_when no_faults valid_fs demo_root (3, 12)
              bootstrapped) as [[H _] _].
  apply H. exists [ConfigNotFound]. vm_compute. reflexivity.
Defined.

Lemma validation_errors_are_sound_witness :
  let errors := [ MissingDirectory "docs/business"; MissingDirectory "docs/ts4";
                  MissingDirectory "docs/ui-intent"; DatabaseNotFound;
                  PythonTooOld ] in
  errors ≠ []
  ∧ (∀ d, MissingDirectory d ∈ errors ↔
       d ∈ ["docs/adrs"; "docs/business"; "docs/features"; "docs/ts4";
            "docs/ui-intent"]
       ∧ fs_exists partial_fs (joinpath demo_root d) = false)
  ∧ (∀ n, MissingCollection n ∈ errors →
       n ∈ REQUIRED_COLLECTIONS ∧ store empty_world !! n = None)
  ∧ (DatabaseNotFound ∈ errors ↔
       fs_exists partial_fs (get_chromadb_path demo_root) = false)
  ∧ (PythonTooOld ∈ errors ↔ python_ok (3, 9) = false).
Proof.
  apply (validation_errors_are_sound no_faults partial_fs demo_root (3, 9)
           empty_world _ [ConfigNotFound]).
  vm_compute. reflexivity.
Defined.

